(** * jellyfinmanager: the episode reconciliation engine

    A shallow embedding of
      - [tvdb.FindMissingEpisodes] (api/tvdb/tvdb.go), the multi-part-episode
        merge detector, and
      - [restoreMovies] / [restoreTVShows] (main.go) together with the parts
        of the jellyfin client they call ([GetAllMovies], [FindSeriesID],
        [GetEpisodesForSeries], [MarkAsWatched]),
    followed by the properties of these functions.

    Conventions.  Go's [int] is a [Z] whose additions wrap at 64 bits;
    [float64] is the Standard Library's binary64; a Go map that is looked up
    by key is a [gmap], one that is only ranged over is the list of its
    entries in the order of the range; the wall clock and the server are
    explicit arguments; console output is left out. *)

From Stdlib Require Import ZArith Ascii String DecimalString SpecFloat.
From stdpp Require Import gmap strings list fin_maps.

Local Open Scope Z_scope.

(** ** Go base types *)

Module golang.

(** [int], taken as the 64-bit signed integer of the amd64/arm64 builds:
    arithmetic wraps around. *)
Definition wrap64 (z : Z) : Z := (z + 2 ^ 63) `mod` 2 ^ 64 - 2 ^ 63.
Definition int_add (a b : Z) : Z := wrap64 (a + b).

(** [float64]: IEEE 754 binary64, through the Standard Library's
    executable specification of it. *)
Definition float64 := spec_float.
Definition prec : Z := 53.
Definition emax : Z := 1024.

(** the conversion [float64(n)] of an [int] *)
Definition float64_of_int (n : Z) : float64 := binary_normalize prec emax n 0 false.
Definition float64_mul (x y : float64) : float64 := SFmul prec emax x y.
(** [x >= y] on float64 *)
Definition float64_ge (x y : float64) : bool := SFleb y x.

(** the constant [0.85] as a float64: the binary64 number nearest to 17/20,
    7656119366529843 * 2^-53 *)
Definition const_0_85 : float64 := S754_finite false 7656119366529843 (-53).

(** [fmt.Sprintf("%d", n)] *)
Definition Sprintf_d (n : Z) : string := NilZero.string_of_int (Z.to_int n).

End golang.

(** ** Package time, as far as the program uses it *)

Module time.

(** An instant, in nanoseconds since 1970-01-01T00:00:00Z. *)
Definition Time := Z.

(** [t.Before(u)] *)
Definition Before (t u : Time) : bool := t <? u.

Definition isLeap (year : Z) : bool :=
  (year `mod` 4 =? 0) && (negb (year `mod` 100 =? 0) || (year `mod` 400 =? 0)).

Definition daysIn (month year : Z) : Z :=
  if month =? 2 then (if isLeap year then 29 else 28)
  else if (month =? 4) || (month =? 6) || (month =? 9) || (month =? 11) then 30
  else 31.

(** days from 1970-01-01 to the given day of the proleptic Gregorian calendar *)
Definition daysSinceEpoch (year month day : Z) : Z :=
  let y := if month <=? 2 then year - 1 else year in
  let era := y `div` 400 in
  let yoe := y - era * 400 in
  let mp := if month <=? 2 then month + 9 else month - 3 in
  let doy := (153 * mp + 2) `div` 5 + day - 1 in
  let doe := yoe * 365 + yoe `div` 4 - yoe `div` 100 + doy in
  era * 146097 + doe - 719468.

Definition nsPerDay : Z := 86400 * 1000000000.

(** [time.Date(year, month, day, hour, min, sec, 0, time.UTC)] *)
Definition Date (year month day hour min sec : Z) : Time :=
  daysSinceEpoch year month day * nsPerDay
  + ((hour * 60 + min) * 60 + sec) * 1000000000.

Definition digit (c : ascii) : option Z :=
  let n := Z.of_N (N_of_ascii c) in
  if (48 <=? n) && (n <=? 57) then Some (n - 48) else None.

Definition isDash (c : ascii) : bool := (N_of_ascii c =? 45)%N.

(** [time.Parse("2006-01-02", value)]: a four-digit year, a two-digit month
    and a two-digit day separated by '-', nothing else; the month in 1..12
    and the day within the month.  The result is midnight UTC of that day;
    [None] stands for a non-nil error. *)
Definition Parse_2006_01_02 (value : string) : option Time :=
  match list_ascii_of_string value with
  | [y1; y2; y3; y4; s1; m1; m2; s2; d1; d2] =>
      match digit y1, digit y2, digit y3, digit y4,
            digit m1, digit m2, digit d1, digit d2 with
      | Some a, Some b, Some c, Some d, Some e, Some f, Some g, Some h =>
          let year := ((a * 10 + b) * 10 + c) * 10 + d in
          let month := e * 10 + f in
          let day := g * 10 + h in
          if isDash s1 && isDash s2
             && (1 <=? month) && (month <=? 12)
             && (1 <=? day) && (day <=? daysIn month year)
          then Some (Date year month day 0 0 0)
          else None
      | _, _, _, _, _, _, _, _ => None
      end
  | _ => None
  end.

(** the UTC calendar day an instant falls on, as a day number *)
Definition utcDay (t : Time) : Z := t `div` nsPerDay.

End time.

(** ** Package models *)

Module models.

Record MissingEpisode := {
  SeriesName : string;
  SeasonNumber : Z;
  EpisodeNumber : Z;
  EpisodeName : string;
  AirDate : string;
  Overview : string
}.

Inductive ItemType := TypeUnknown | TypeMovie | TypeEpisode.

(** [ProviderIDs] is a Go map that the program only ranges over: it is
    held as the sequence of its entries in the order the [range] statement
    visits them (an order Go leaves unspecified).  [Type_] is the field
    [Type] and [WSeriesName] the field [SeriesName] of the Go struct. *)
Record WatchedItem := {
  ID : string;
  Name : string;
  Type_ : ItemType;
  WSeriesName : string;
  SeasonName : string;
  PlayedDate : time.Time;
  ProviderIDs : list (string * string)
}.

End models.

(** ** Package tvdb: the merge detector *)

Module tvdb.

Record Episode := {
  ID : Z;
  Name : string;
  Overview : string;
  Aired : string;
  SeasonNumber : Z;
  Number : Z;
  RuntimeMinutes : Z;
  SeriesID : Z;
  AbsoluteNumber : Z;
  FinaleType : string
}.

(** The variables of [FindMissingEpisodes] that live across iterations:
    the chain-tracking variables and the result slice. *)
Record scanState := {
  chainActive : bool;
  chainSeason : Z;
  chainJfRuntime : Z;
  chainTvdbRuntimeAccum : Z;
  missing : list models.MissingEpisode
}.

(** all variables at their zero values *)
Definition scanInit : scanState :=
  {| chainActive := false; chainSeason := 0; chainJfRuntime := 0;
     chainTvdbRuntimeAccum := 0; missing := [] |}.

(** [fmt.Sprintf("%d:%d", ep.SeasonNumber, ep.Number)] *)
Definition episodeKey (ep : Episode) : string :=
  golang.Sprintf_d (SeasonNumber ep) +:+ ":" +:+ golang.Sprintf_d (Number ep).

(** the literal appended to [missing]; [SeriesName] is not set *)
Definition missingOf (ep : Episode) : models.MissingEpisode :=
  {| models.SeriesName := EmptyString;
     models.SeasonNumber := SeasonNumber ep;
     models.EpisodeNumber := Number ep;
     models.EpisodeName := Name ep;
     models.AirDate := Aired ep;
     models.Overview := Overview ep |}.

(** [errDate == nil && airDate.Before(now)], [now] being what [time.Now()]
    returns in this iteration *)
Definition airedBefore (now : time.Time) (ep : Episode) : bool :=
  match time.Parse_2006_01_02 (Aired ep) with
  | Some airDate => time.Before airDate now
  | None => false
  end.

(** [float64(chainJfRuntime) >= requiredLength*0.85] with
    [requiredLength := float64(accum)] *)
Definition longEnough (jfRuntime accum : Z) : bool :=
  let requiredLength := golang.float64_of_int accum in
  golang.float64_ge (golang.float64_of_int jfRuntime)
                    (golang.float64_mul requiredLength golang.const_0_85).

Section Scan.
Variable jellyfinEpisodes : gmap string Z.
Variable checkSpecials : bool.

(** The merge check of a candidate episode (the statement
    [if chainActive && chainSeason == ep.SeasonNumber ... else ...]):
    the state after it and the value of [isMerged]. *)
Definition mergeCheck (st : scanState) (ep : Episode) : scanState * bool :=
  if chainActive st && (chainSeason st =? SeasonNumber ep) then
    let accum := golang.int_add (chainTvdbRuntimeAccum st) (RuntimeMinutes ep) in
    if longEnough (chainJfRuntime st) accum then
      ({| chainActive := chainActive st; chainSeason := chainSeason st;
          chainJfRuntime := chainJfRuntime st;
          chainTvdbRuntimeAccum := accum; missing := missing st |}, true)
    else
      ({| chainActive := false; chainSeason := chainSeason st;
          chainJfRuntime := chainJfRuntime st;
          chainTvdbRuntimeAccum := accum; missing := missing st |}, false)
  else
    ({| chainActive := false; chainSeason := chainSeason st;
        chainJfRuntime := chainJfRuntime st;
        chainTvdbRuntimeAccum := chainTvdbRuntimeAccum st;
        missing := missing st |}, false).

(** One iteration of the loop over [tvdbEpisodes]. *)
Definition scanStep (now : time.Time) (st : scanState) (ep : Episode) : scanState :=
  match jellyfinEpisodes !! episodeKey ep with
  | Some jfRuntime =>
      {| chainActive := true; chainSeason := SeasonNumber ep;
         chainJfRuntime := jfRuntime;
         chainTvdbRuntimeAccum := RuntimeMinutes ep;
         missing := missing st |}
  | None =>
      if (negb (SeasonNumber ep =? 0) || checkSpecials) && airedBefore now ep then
        let '(st1, isMerged) := mergeCheck st ep in
        if negb isMerged then
          {| chainActive := false; chainSeason := chainSeason st1;
             chainJfRuntime := chainJfRuntime st1;
             chainTvdbRuntimeAccum := chainTvdbRuntimeAccum st1;
             missing := missing st1 ++ [missingOf ep] |}
        else st1
      else st
  end.

(** The loop, from iteration [i] on.  [nowAt i] is the reading of
    [time.Now()] in iteration [i] (counted from 0). *)
Fixpoint scanFrom (nowAt : nat -> time.Time) (i : nat) (st : scanState)
    (eps : list Episode) : scanState :=
  match eps with
  | [] => st
  | ep :: rest => scanFrom nowAt (S i) (scanStep (nowAt i) st ep) rest
  end.

Definition FindMissingEpisodes_at (nowAt : nat -> time.Time)
    (tvdbEpisodes : list Episode) : list models.MissingEpisode :=
  missing (scanFrom nowAt 0%nat scanInit tvdbEpisodes).

(** *** Notions used to state the properties of the scan *)

(** the state with the result slice replaced *)
Definition withMissing (st : scanState) (ms : list models.MissingEpisode) : scanState :=
  {| chainActive := chainActive st; chainSeason := chainSeason st;
     chainJfRuntime := chainJfRuntime st;
     chainTvdbRuntimeAccum := chainTvdbRuntimeAccum st; missing := ms |}.

(** the four chain variables of a state *)
Definition chainOf (st : scanState) : bool * Z * Z * Z :=
  (chainActive st, chainSeason st, chainJfRuntime st, chainTvdbRuntimeAccum st).

(** a candidate: what the loop considers for reporting once the episode
    is known to be absent *)
Definition candidate (now : time.Time) (ep : Episode) : bool :=
  (negb (SeasonNumber ep =? 0) || checkSpecials) && airedBefore now ep.

(** the merge test of the loop, on the state before the episode *)
Definition folds (st : scanState) (ep : Episode) : bool :=
  chainActive st && (chainSeason st =? SeasonNumber ep)
  && longEnough (chainJfRuntime st)
       (golang.int_add (chainTvdbRuntimeAccum st) (RuntimeMinutes ep)).

(** what a scan from state [st] appends to the result slice *)
Definition emitted (nowAt : nat -> time.Time) (i : nat) (st : scanState)
    (eps : list Episode) : list models.MissingEpisode :=
  missing (scanFrom nowAt i (withMissing st []) eps).

(** the clock of a run from which iteration [k] is left out *)
Definition skipAt (k : nat) (nowAt : nat -> time.Time) (i : nat) : time.Time :=
  if (i <? k)%nat then nowAt i else nowAt (S i).

(** The spec's reading of "not strictly in the past": the air date does
    not parse, or it is the clock's UTC day ("today") or a later one. *)
Definition spec_notYetDue (now : time.Time) (ep : Episode) : Prop :=
  match time.Parse_2006_01_02 (Aired ep) with
  | Some airDate => time.utcDay now <= time.utcDay airDate
  | None => True
  end.

End Scan.

(** [FindMissingEpisodes(tvdbEpisodes, jellyfinEpisodes, checkSpecials)],
    run while the clock reads [nowAt]. *)
Definition FindMissingEpisodes (nowAt : nat -> time.Time)
    (tvdbEpisodes : list Episode) (jellyfinEpisodes : gmap string Z)
    (checkSpecials : bool) : list models.MissingEpisode :=
  FindMissingEpisodes_at jellyfinEpisodes checkSpecials nowAt tvdbEpisodes.

End tvdb.

(** ** Package jellyfin: the client calls used by the restore *)

Module jellyfin.

(** The requests the client sends to the server. *)
Inductive Call :=
| GetAllMoviesCall
| FindSeriesCall (seriesName : string)
| GetEpisodesCall (seriesID : string)
| MarkAsWatchedCall (itemID : string).

(** an element of [Items] in the reply to the movie query *)
Record MovieItem := {
  MID : string;
  MName : string;
  MProviderIds : list (string * string);
  MPlayed : bool
}.

(** an element of [Items] in the reply to the series search *)
Record SeriesItem := { SID : string; SName : string }.

(** an element of [Items] in the reply to the episode query *)
Record EpisodeItem := {
  EID : string;
  EName : string;
  ESeriesName : string;
  ESeasonName : string;
  EIndexNumber : Z;
  EParentIndexNumber : Z;
  ERuntimeTicks : Z;
  EProviderIds : list (string * string);
  EPlayed : bool
}.

(** The server and the transport, seen from the client: what a request
    yields, given the requests sent before it.  [None] (or [false] for the
    mark request) stands for a failed request or an undecodable reply, that
    is a non-nil [err]. *)
Record Server := {
  moviesReply : list Call -> option (list MovieItem);
  seriesReply : list Call -> string -> option (list SeriesItem);
  episodesReply : list Call -> string -> option (list EpisodeItem);
  markReply : list Call -> string -> bool
}.

Record MovieInfo := { ID : string; Played : bool }.

(** [EpID] and [EpPlayed] are the fields [ID] and [Played] of the Go struct. *)
Record EpisodeInfo := {
  EpID : string;
  Name : string;
  SeriesName : string;
  SeasonName : string;
  SeasonNumber : Z;
  EpisodeNumber : Z;
  RuntimeMinutes : Z;
  ProviderIDs : list (string * string);
  EpPlayed : bool
}.

(** [provider + ":" + id] *)
Definition providerKey (entry : string * string) : string :=
  fst entry +:+ ":" +:+ snd entry.

(** [for provider, id := range ids { m[provider+":"+id] = info }] *)
Definition insertProviderIds {A} (info : A) (ids : list (string * string))
    (m : gmap string A) : gmap string A :=
  foldl (fun acc entry => <[providerKey entry := info]> acc) m ids.

Section Client.
Variable srv : Server.

(** [MarkAsWatched(itemID)]; [true] is a nil error.  Every operation
    takes the requests sent so far and returns them extended. *)
Definition MarkAsWatched (itemID : string) (sent : list Call) : bool * list Call :=
  (markReply srv sent itemID, sent ++ [MarkAsWatchedCall itemID]).

Definition firstExactMatch (seriesName : string) (items : list SeriesItem) : option string :=
  match List.find (fun item => bool_decide (SName item = seriesName)) items with
  | Some item => Some (SID item)
  | None => None
  end.

Definition FindSeriesID (seriesName : string) (sent : list Call)
    : option string * list Call :=
  let sent' := sent ++ [FindSeriesCall seriesName] in
  match seriesReply srv sent seriesName with
  | None => (None, sent')
  | Some items =>
      match firstExactMatch seriesName items with
      | Some id => (Some id, sent')
      | None =>
          match items with
          | first :: _ => (Some (SID first), sent')
          | [] => (None, sent')
          end
      end
  end.

Definition episodeOfItem (item : EpisodeItem) : EpisodeInfo :=
  {| EpID := EID item; Name := EName item;
     SeriesName := ESeriesName item; SeasonName := ESeasonName item;
     SeasonNumber := EParentIndexNumber item;
     EpisodeNumber := EIndexNumber item;
     RuntimeMinutes := ERuntimeTicks item ÷ (60 * 10 * 1000 * 1000);
     ProviderIDs := EProviderIds item;
     EpPlayed := EPlayed item |}.

Definition GetEpisodesForSeries (seriesID : string) (sent : list Call)
    : option (list EpisodeInfo) * list Call :=
  (match episodesReply srv sent seriesID with
   | Some items => Some (map episodeOfItem items)
   | None => None
   end,
   sent ++ [GetEpisodesCall seriesID]).

(** the body of the loop over [result.Items] in [GetAllMovies] *)
Definition addMovie (maps : gmap string MovieInfo * gmap string MovieInfo)
    (item : MovieItem) : gmap string MovieInfo * gmap string MovieInfo :=
  let info := {| ID := MID item; Played := MPlayed item |} in
  (insertProviderIds info (MProviderIds item) (fst maps),
   <[MName item := info]> (snd maps)).

(** [GetAllMovies()]: the provider-key map and the name map *)
Definition GetAllMovies (sent : list Call)
    : option (gmap string MovieInfo * gmap string MovieInfo) * list Call :=
  (match moviesReply srv sent with
   | Some items => Some (foldl addMovie (∅, ∅) items)
   | None => None
   end,
   sent ++ [GetAllMoviesCall]).

End Client.

End jellyfin.

(** ** Package main: the restore coordinator *)

Module main.

(** [len(s)] of a slice, as an [int] *)
Definition len {A} (s : list A) : Z := Z.of_nat (length s).

(** What a restore function has computed so far: its two named results
    and the requests sent to the server.  (The counters are bounded by the
    lengths of the slices, so they never wrap around.) *)
Record Run := {
  successful : Z;
  failed : Z;
  sent : list jellyfin.Call
}.

(** the counters after one more success, respectively one more failure *)
Definition oneMore (st st' : Run) : Prop :=
  (successful st' = successful st + 1 /\ failed st' = failed st)
  ∨ (successful st' = successful st /\ failed st' = failed st + 1).

Definition countFailed (st : Run) : Run :=
  {| successful := successful st; failed := failed st + 1; sent := sent st |}.
Definition countSuccessful (st : Run) : Run :=
  {| successful := successful st + 1; failed := failed st; sent := sent st |}.

(** the type [EpisodeInfo] declared inside [restoreTVShows] *)
Record EpisodeInfo := { ID : string; Played : bool }.

(** The loop "Try provider IDs first": the entry of [providerIdMap] under
    the first key [provider:id] of the record that has one. *)
Fixpoint lookupProviderIDs {A} (providerIdMap : gmap string A)
    (ids : list (string * string)) : option A :=
  match ids with
  | [] => None
  | entry :: rest =>
      match providerIdMap !! jellyfin.providerKey entry with
      | Some info => Some info
      | None => lookupProviderIDs providerIdMap rest
      end
  end.

(** [movieInfo, found] after the two lookups of [restoreMovies];
    [None] is [found == false]. *)
Definition findMovie (providerIdMap nameMap : gmap string jellyfin.MovieInfo)
    (movie : models.WatchedItem) : option jellyfin.MovieInfo :=
  match lookupProviderIDs providerIdMap (models.ProviderIDs movie) with
  | Some info => Some info
  | None => nameMap !! models.Name movie
  end.

(** [episodeInfo, found] after the two lookups of [restoreTVShows] *)
Definition findEpisode (providerIdMap nameSeasonMap : gmap string EpisodeInfo)
    (episode : models.WatchedItem) : option EpisodeInfo :=
  match lookupProviderIDs providerIdMap (models.ProviderIDs episode) with
  | Some info => Some info
  | None =>
      nameSeasonMap !! (models.SeasonName episode +:+ ":" +:+ models.Name episode)
  end.

Section Restore.
Variable srv : jellyfin.Server.

(** the body of the loop over [movies] *)
Definition movieStep (providerIdMap nameMap : gmap string jellyfin.MovieInfo)
    (st : Run) (movie : models.WatchedItem) : Run :=
  match findMovie providerIdMap nameMap movie with
  | None => countFailed st
  | Some movieInfo =>
      if jellyfin.Played movieInfo then countSuccessful st
      else
        let '(ok, sent') := jellyfin.MarkAsWatched srv (jellyfin.ID movieInfo) (sent st) in
        if ok
        then {| successful := successful st + 1; failed := failed st; sent := sent' |}
        else {| successful := successful st; failed := failed st + 1; sent := sent' |}
  end.

(** [restoreMovies(client, movies)], started after the requests [sent0] *)
Definition restoreMovies (movies : list models.WatchedItem)
    (sent0 : list jellyfin.Call) : Run :=
  match jellyfin.GetAllMovies srv sent0 with
  | (None, sent1) => {| successful := 0; failed := len movies; sent := sent1 |}
  | (Some (providerIdMap, nameMap), sent1) =>
      foldl (movieStep providerIdMap nameMap)
            {| successful := 0; failed := 0; sent := sent1 |} movies
  end.

(** the body of the loop "Build lookup maps" *)
Definition addEpisode (maps : gmap string EpisodeInfo * gmap string EpisodeInfo)
    (ep : jellyfin.EpisodeInfo) : gmap string EpisodeInfo * gmap string EpisodeInfo :=
  let info := {| ID := jellyfin.EpID ep; Played := jellyfin.EpPlayed ep |} in
  let key := jellyfin.SeasonName ep +:+ ":" +:+ jellyfin.Name ep in
  (jellyfin.insertProviderIds info (jellyfin.ProviderIDs ep) (fst maps),
   <[key := info]> (snd maps)).

(** the body of the loop over [seasonEpisodes] *)
Definition episodeStep (providerIdMap nameSeasonMap : gmap string EpisodeInfo)
    (st : Run) (episode : models.WatchedItem) : Run :=
  match findEpisode providerIdMap nameSeasonMap episode with
  | None => countFailed st
  | Some episodeInfo =>
      if Played episodeInfo then countSuccessful st
      else
        let '(ok, sent') := jellyfin.MarkAsWatched srv (ID episodeInfo) (sent st) in
        if ok
        then {| successful := successful st + 1; failed := failed st; sent := sent' |}
        else {| successful := successful st; failed := failed st + 1; sent := sent' |}
  end.

(** A series group of [tvShowMap]: the series name and its seasons, each
    a season name with its episodes.  Both Go maps are only ranged over
    and are held as their entries in the order visited. *)
Definition Seasons := list (string * list models.WatchedItem).
Definition Show : Type := string * Seasons.

(** [for _, episodes := range seasons { failed += len(episodes) }] *)
Definition failAll (seasons : Seasons) (st : Run) : Run :=
  {| successful := successful st;
     failed := foldl (fun n season => n + len (snd season)) (failed st) seasons;
     sent := sent st |}.

Definition withSent (st : Run) (sent' : list jellyfin.Call) : Run :=
  {| successful := successful st; failed := failed st; sent := sent' |}.

(** the body of the loop over [tvShowMap] *)
Definition showStep (st : Run) (show : Show) : Run :=
  let '(seriesName, seasons) := show in
  match jellyfin.FindSeriesID srv seriesName (sent st) with
  | (None, sent1) => failAll seasons (withSent st sent1)
  | (Some seriesID, sent1) =>
      match jellyfin.GetEpisodesForSeries srv seriesID sent1 with
      | (None, sent2) => failAll seasons (withSent st sent2)
      | (Some episodes, sent2) =>
          let '(providerIdMap, nameSeasonMap) := foldl addEpisode (∅, ∅) episodes in
          foldl (fun st1 season =>
                   foldl (episodeStep providerIdMap nameSeasonMap) st1 (snd season))
                (withSent st sent2) seasons
      end
  end.

(** [restoreTVShows(client, tvShowMap)], started after the requests [sent0] *)
Definition restoreTVShows (tvShowMap : list Show) (sent0 : list jellyfin.Call) : Run :=
  foldl showStep {| successful := 0; failed := 0; sent := sent0 |} tvShowMap.

(** the number of snapshot episodes in a series group and in the batch *)
Definition episodesIn (seasons : Seasons) : Z :=
  foldr (fun season n => len (snd season) + n) 0 seasons.
Definition episodesOf (tvShowMap : list Show) : Z :=
  foldr (fun show n => episodesIn (snd show) + n) 0 tvShowMap.

End Restore.

End main.

(** ** Concrete data used in the examples *)

Module samples.

Definition episode (season number runtime : Z) (aired : string) : tvdb.Episode :=
  {| tvdb.ID := 0; tvdb.Name := "Ep"; tvdb.Overview := EmptyString; tvdb.Aired := aired;
     tvdb.SeasonNumber := season; tvdb.Number := number;
     tvdb.RuntimeMinutes := runtime; tvdb.SeriesID := 0;
     tvdb.AbsoluteNumber := 0; tvdb.FinaleType := EmptyString |}.

(** a clock that reads 2024-01-15 12:00:00 UTC throughout the run *)
Definition noon (_ : nat) : time.Time := time.Date 2024 1 15 12 0 0.
(** a clock that reads 2024-01-14 12:00:00 UTC throughout the run *)
Definition dayBefore (_ : nat) : time.Time := time.Date 2024 1 14 12 0 0.

Definition part1 : tvdb.Episode := episode 1 1 100 "2023-05-01".
Definition part2 : tvdb.Episode := episode 1 2 20 "2023-05-08".
Definition undated : tvdb.Episode := episode 1 2 20 "TBA".
Definition part3 : tvdb.Episode := episode 1 3 0 "2023-05-15".
Definition special : tvdb.Episode := episode 0 1 30 "2023-06-01".
(** an episode airing on the day of the [noon] clock *)
Definition airsToday : tvdb.Episode := episode 1 4 20 "2024-01-15".

End samples.

Module samples_restore.

Definition movie (name : string) (ids : list (string * string)) : models.WatchedItem :=
  {| models.ID := "snapshot-id"; models.Name := name; models.Type_ := models.TypeMovie;
     models.WSeriesName := EmptyString; models.SeasonName := EmptyString; models.PlayedDate := 0;
     models.ProviderIDs := ids |}.

Definition episode (series season name : string) (ids : list (string * string))
    : models.WatchedItem :=
  {| models.ID := "snapshot-id"; models.Name := name; models.Type_ := models.TypeEpisode;
     models.WSeriesName := series; models.SeasonName := season;
     models.PlayedDate := 0; models.ProviderIDs := ids |}.

Definition byProvider : jellyfin.MovieInfo := {| jellyfin.ID := "a"; jellyfin.Played := true |}.
Definition byName : jellyfin.MovieInfo := {| jellyfin.ID := "b"; jellyfin.Played := false |}.

(** a server that knows one played movie, finds no series, and on which
    every mark request fails *)
Definition server : jellyfin.Server :=
  {| jellyfin.moviesReply := fun _ =>
       Some [ {| jellyfin.MID := "a"; jellyfin.MName := "Movie";
                 jellyfin.MProviderIds := [("Imdb", "tt1")]%string;
                 jellyfin.MPlayed := true |} ];
     jellyfin.seriesReply := fun _ _ => Some [];
     jellyfin.episodesReply := fun _ _ => None;
     jellyfin.markReply := fun _ _ => false |}.

(** a server that cannot be reached *)
Definition offline : jellyfin.Server :=
  {| jellyfin.moviesReply := fun _ => None;
     jellyfin.seriesReply := fun _ _ => None;
     jellyfin.episodesReply := fun _ _ => None;
     jellyfin.markReply := fun _ _ => false |}.

Definition show : string * list (string * list models.WatchedItem) :=
  ("Show", [("Season 1", [episode "Show" "Season 1" "Ep5" []; episode "Show" "Season 1" "Ep6" []]);
            ("Season 2", [episode "Show" "Season 2" "Ep1" []])])%string.

End samples_restore.

From Stdlib Require Import DecimalZ DecimalPos.

(** ** Further notions for the merge detector *)

Module scan_notions.

(** the clock of a run that starts at iteration [k] of another *)
Definition clockFrom (k : nat) (nowAt : nat -> time.Time) (i : nat) : time.Time :=
  nowAt (k + i)%nat.

(** the episodes of a sequence that are candidates at their iteration,
    the first being scanned in iteration [i] *)
Fixpoint candidatesFrom (checkSpecials : bool) (nowAt : nat -> time.Time) (i : nat)
    (eps : list tvdb.Episode) : list tvdb.Episode :=
  match eps with
  | [] => []
  | ep :: rest =>
      (if tvdb.candidate checkSpecials (nowAt i) ep then [ep] else [])
      ++ candidatesFrom checkSpecials nowAt (S i) rest
  end.


End scan_notions.

(** ** Package main: the missing-episode check of one series *)

Module main_findmissing.

(** [fmt.Sprintf("%d:%d", ep.SeasonNumber, ep.EpisodeNumber)] *)
Definition jellyfinKey (ep : jellyfin.EpisodeInfo) : string :=
  golang.Sprintf_d (jellyfin.SeasonNumber ep) +:+ ":"
  +:+ golang.Sprintf_d (jellyfin.EpisodeNumber ep).

(** the loop "Build map of existing episodes" of [performFindMissing] *)
Definition existingEpisodes (jellyfinEpisodes : list jellyfin.EpisodeInfo)
    : gmap string Z :=
  foldl (fun existing ep => <[jellyfinKey ep := jellyfin.RuntimeMinutes ep]> existing)
        ∅ jellyfinEpisodes.

(** [missing] of [performFindMissing] for one series, from the episodes
    fetched from TVDB and from Jellyfin *)
Definition missingOfSeries (nowAt : nat -> time.Time)
    (tvdbEpisodes : list tvdb.Episode)
    (jellyfinEpisodes : list jellyfin.EpisodeInfo) (includeSpecials : bool)
    : list models.MissingEpisode :=
  tvdb.FindMissingEpisodes nowAt tvdbEpisodes (existingEpisodes jellyfinEpisodes)
    includeSpecials.

(** a string without the separator of the keys *)
Definition noColon (s : string) : Prop :=
  Forall (fun c => c <> ":"%char) (list_ascii_of_string s).

(** the Jellyfin episodes with the given season and episode number *)
Definition numbered (season number : Z) (jellyfinEpisodes : list jellyfin.EpisodeInfo)
    : list jellyfin.EpisodeInfo :=
  filter (fun ep => jellyfin.SeasonNumber ep = season
                    /\ jellyfin.EpisodeNumber ep = number) jellyfinEpisodes.

End main_findmissing.

(** ** Package tvdb: the client *)

Module tvdb_client.

(** [Client], without its [httpClient] *)
Record Client := { apiKey : string; token : string }.

Definition NewClient (apiKey : string) : Client :=
  {| apiKey := apiKey; token := EmptyString |}.

(** The requests sent to TVDB: the login with its API key, and the
    authenticated requests with method, endpoint and bearer token. *)
Inductive Call :=
| LoginCall (apiKey : string)
| RequestCall (method endpoint token : string).

(** A response to a page request as [GetSeriesEpisodes] sees it: the
    status code, and what decoding the body gives, the episodes of
    [data.episodes] and [links.next], or [None] when it cannot be
    decoded. *)
Record PageResponse := {
  StatusCode : Z;
  decoded : option (list tvdb.Episode * string)
}.

(** TVDB and the transport, seen from the client, given the requests
    sent before; [None] is a failed request (a non-nil [err] of
    [httpClient.Do]).  The login yields a status code and, decoded from
    the body, [data.token]. *)
Record Server := {
  loginReply : list Call -> string -> option (Z * option string);
  pageReply : list Call -> string -> string -> option PageResponse
}.

Section Client.
Variable srv : Server.

(** [Login()]: the client after the call and whether it succeeded *)
Definition Login (c : Client) (sent : list Call) : (Client * bool) * list Call :=
  let sent' := sent ++ [LoginCall (apiKey c)] in
  match loginReply srv sent (apiKey c) with
  | None => ((c, false), sent')
  | Some (status, body) =>
      if negb (status =? 200) then ((c, false), sent')
      else match body with
           | None => ((c, false), sent')
           | Some tok => (({| apiKey := apiKey c; token := tok |}, true), sent')
           end
  end.

(** [makeRequest("GET", endpoint)] for a page of episodes *)
Definition makeRequest (c : Client) (endpoint : string) (sent : list Call)
    : option PageResponse * list Call :=
  if bool_decide (token c = EmptyString) then (None, sent)
  else (pageReply srv sent endpoint (token c),
        sent ++ [RequestCall "GET" endpoint (token c)]).

(** [fmt.Sprintf("/series/%s/episodes/default?page=%d", seriesID, page)] *)
Definition pageEndpoint (seriesID : string) (page : Z) : string :=
  "/series/" +:+ seriesID +:+ "/episodes/default?page=" +:+ golang.Sprintf_d page.

(** The loop of [GetSeriesEpisodes], for at most [fuel] pages, from the
    values of [page] and [allEpisodes] on.  The result is [None] when
    the loop has not ended within [fuel] pages, [Some None] for an
    error and [Some (Some episodes)] for a result. *)
Fixpoint pagesFrom (fuel : nat) (c : Client) (seriesID : string) (page : Z)
    (allEpisodes : list tvdb.Episode) (sent : list Call)
    : option (option (list tvdb.Episode)) * list Call :=
  match fuel with
  | O => (None, sent)
  | S fuel' =>
      match makeRequest c (pageEndpoint seriesID page) sent with
      | (None, sent1) => (Some None, sent1)
      | (Some resp, sent1) =>
          match decoded resp with
          | None => (Some None, sent1)
          | Some (episodes, next) =>
              let allEpisodes' := allEpisodes ++ episodes in
              if bool_decide (next = EmptyString)
              then (Some (Some allEpisodes'), sent1)
              else pagesFrom fuel' c seriesID (golang.int_add page 1)
                     allEpisodes' sent1
          end
      end
  end.

Definition GetSeriesEpisodes (fuel : nat) (c : Client) (seriesID : string)
    (sent : list Call) : option (option (list tvdb.Episode)) * list Call :=
  pagesFrom fuel c seriesID 0 [] sent.


End Client.

End tvdb_client.

(** ** Package main: the restore as a whole *)

Module main_restore.

#[global] Instance ItemType_eq_dec : EqDecision models.ItemType.
Proof. solve_decision. Defined.

(** The body of the loop "Group items by type" of [performRestore], on
    [movies] and [tvShowMap].  [TypeUnknown] stands for every value of
    [Type] other than [TypeMovie] and [TypeEpisode]. *)
Definition addItem
    (groups : list models.WatchedItem
              * gmap string (gmap string (list models.WatchedItem)))
    (item : models.WatchedItem)
    : list models.WatchedItem * gmap string (gmap string (list models.WatchedItem)) :=
  match models.Type_ item with
  | models.TypeMovie => (fst groups ++ [item], snd groups)
  | models.TypeEpisode =>
      let seasons := default ∅ (snd groups !! models.WSeriesName item) in
      let episodes := default [] (seasons !! models.SeasonName item) in
      (fst groups,
       <[models.WSeriesName item :=
           <[models.SeasonName item := episodes ++ [item]]> seasons]> (snd groups))
  | models.TypeUnknown => groups
  end.

Definition groupItems (items : list models.WatchedItem)
    : list models.WatchedItem * gmap string (gmap string (list models.WatchedItem)) :=
  foldl addItem ([], ∅) items.

(** the loops that add the sizes of all groups to [total] *)
Definition addEpisodeCounts (total : Z)
    (tvShowMap : gmap string (gmap string (list models.WatchedItem))) : Z :=
  map_fold (fun _ seasons tot =>
              map_fold (fun _ episodes tot' => tot' + main.len episodes) tot seasons)
           total tvShowMap.

(** What [performRestore] prints at its end, and the requests sent. *)
Record Summary := {
  successful : Z;
  failed : Z;
  total : Z;
  sent : list jellyfin.Call
}.

(** [shows] is an order in which [restoreTVShows] can range over
    [tvShowMap] and over the seasons of each of its series. *)
Definition rangeOf (tvShowMap : gmap string (gmap string (list models.WatchedItem)))
    (shows : list main.Show) : Prop :=
  exists outer,
    outer ≡ₚ map_to_list tvShowMap
    /\ Forall2 (fun entry show =>
                  fst entry = fst show /\ snd show ≡ₚ map_to_list (snd entry))
               outer shows.

Section Flow.
Variable srv : jellyfin.Server.
(** the order in which the run ranges over the groups *)
Variable rangeOver :
  gmap string (gmap string (list models.WatchedItem)) -> list main.Show.

(** [performRestore], from the decoded [backup.WatchedItems] on *)
Definition performRestore (items : list models.WatchedItem)
    (sent0 : list jellyfin.Call) : Summary :=
  let '(movies, tvShowMap) := groupItems items in
  let afterMovies :=
    if 0 <? main.len movies then
      let r := main.restoreMovies srv movies sent0 in
      {| successful := main.successful r; failed := main.failed r;
         total := main.len movies; sent := main.sent r |}
    else {| successful := 0; failed := 0; total := 0; sent := sent0 |} in
  if (0 <? size tvShowMap)%nat then
    let r := main.restoreTVShows srv (rangeOver tvShowMap) (sent afterMovies) in
    {| successful := successful afterMovies + main.successful r;
       failed := failed afterMovies + main.failed r;
       total := addEpisodeCounts (total afterMovies) tvShowMap;
       sent := main.sent r |}
  else afterMovies.

End Flow.

(** the snapshot episodes of a series and season, in the order of the backup *)
Definition episodesOfGroup (series season : string) (items : list models.WatchedItem)
    : list models.WatchedItem :=
  filter (fun item => models.Type_ item = models.TypeEpisode
                      /\ models.WSeriesName item = series
                      /\ models.SeasonName item = season) items.

(** the sum of the weights of the values of a list of map entries *)
Definition weight {V} (w : V -> Z) (entries : list (string * V)) : Z :=
  foldr (fun entry n => w (snd entry) + n) 0 entries.

(** the number of episode records in the groups of a series *)
Definition seasonsWeight (seasons : gmap string (list models.WatchedItem)) : Z :=
  weight main.len (map_to_list seasons).



(** an order of the groups: that of [map_to_list] *)
Definition someOrder (tvShowMap : gmap string (gmap string (list models.WatchedItem)))
    : list main.Show :=
  map (fun entry => (fst entry, map_to_list (snd entry))) (map_to_list tvShowMap).

End main_restore.

(** ** Further concrete data used in the examples *)

Module samples_more.

(** a Jellyfin episode with the given numbers and runtime *)
Definition localEpisode (season number runtime : Z) : jellyfin.EpisodeInfo :=
  {| jellyfin.EpID := "e"; jellyfin.Name := "Ep"; jellyfin.SeriesName := "Show";
     jellyfin.SeasonName := "Season 1"; jellyfin.SeasonNumber := season;
     jellyfin.EpisodeNumber := number; jellyfin.RuntimeMinutes := runtime;
     jellyfin.ProviderIDs := []; jellyfin.EpPlayed := false |}.


Definition page (episodes : list tvdb.Episode) (next : string)
    : option tvdb_client.PageResponse :=
  Some {| tvdb_client.StatusCode := 200;
          tvdb_client.decoded := Some (episodes, next) |}.


(** TVDB that refuses the login, and whose second page of the series 42
    cannot be decoded *)
Definition brokenSecondPage : tvdb_client.Server :=
  {| tvdb_client.loginReply := fun _ _ => Some (401, None);
     tvdb_client.pageReply := fun _ endpoint _ =>
       if String.eqb endpoint "/series/42/episodes/default?page=0"
       then page [samples.part1] "https://api4.thetvdb.com/v4/next"
       else Some {| tvdb_client.StatusCode := 500; tvdb_client.decoded := None |} |}.


Definition showTwo : jellyfin.SeriesItem :=
  {| jellyfin.SID := "s2"; jellyfin.SName := "Show 2" |}.
Definition showOne : jellyfin.SeriesItem :=
  {| jellyfin.SID := "s1"; jellyfin.SName := "Show" |}.

(** a server that finds two series for every search, the sequel first,
    and cannot list the episodes of any *)
Definition noEpisodes : jellyfin.Server :=
  {| jellyfin.moviesReply := fun _ => None;
     jellyfin.seriesReply := fun _ _ => Some [showTwo; showOne];
     jellyfin.episodesReply := fun _ _ => None;
     jellyfin.markReply := fun _ _ => false |}.

(** a backup with a movie, two episodes of a series and a record of
    another type *)
Definition backup : list models.WatchedItem :=
  [ samples_restore.movie "Movie" [("Imdb", "tt1")]%string;
    samples_restore.episode "Show" "Season 1" "Ep1" [];
    {| models.ID := "x"; models.Name := "Clip"; models.Type_ := models.TypeUnknown;
       models.WSeriesName := EmptyString; models.SeasonName := EmptyString;
       models.PlayedDate := 0; models.ProviderIDs := [] |};
    samples_restore.episode "Show" "Season 2" "Ep1" [] ].

End samples_more.

(** * The float64 test against 0.85, in exact arithmetic *)

Section Float64.
Import golang.

(** [const_0_85] is within half a unit in the last place of 17/20. *)
Lemma const_0_85_nearest :
  const_0_85 = S754_finite false 7656119366529843 (-53)
  /\ 2 * Z.abs (20 * 7656119366529843 - 17 * 2 ^ 53) <= 20.
Proof. split; [reflexivity|]. by vm_compute. Qed.

Lemma digits2_pos_bounds p :
  2 ^ (Z.pos (digits2_pos p) - 1) <= Z.pos p < 2 ^ Z.pos (digits2_pos p).
Proof.
  induction p as [p IH|p IH|]; cbn [digits2_pos].
  - rewrite Pos2Z.inj_succ, Z.pow_succ_r by lia.
    replace (Z.succ (Z.pos (digits2_pos p)) - 1) with (Z.succ (Z.pos (digits2_pos p) - 1))
      by lia.
    rewrite Z.pow_succ_r by lia. lia.
  - rewrite Pos2Z.inj_succ, Z.pow_succ_r by lia.
    replace (Z.succ (Z.pos (digits2_pos p)) - 1) with (Z.succ (Z.pos (digits2_pos p) - 1))
      by lia.
    rewrite Z.pow_succ_r by lia. lia.
  - simpl. lia.
Qed.

Lemma digits2_pos_unique p d :
  2 ^ (d - 1) <= Z.pos p < 2 ^ d -> Z.pos (digits2_pos p) = d.
Proof.
  intros [Hlo Hhi]. pose proof (digits2_pos_bounds p) as [Hlo' Hhi'].
  assert (0 < d).
  { destruct (Z.lt_ge_cases 0 d); [done|].
    destruct (Z.eq_dec d 0) as [->|]; [simpl in *; lia|].
    rewrite Z.pow_neg_r in Hhi by lia. lia. }
  destruct (Z.lt_trichotomy (Z.pos (digits2_pos p)) d) as [Hlt|[Heq|Hgt]]; [|done|].
  - assert (2 ^ Z.pos (digits2_pos p) <= 2 ^ (d - 1))
      by (apply Z.pow_le_mono_r; lia). lia.
  - assert (2 ^ d <= 2 ^ (Z.pos (digits2_pos p) - 1))
      by (apply Z.pow_le_mono_r; lia). lia.
Qed.

Lemma iter_xO p d : Z.pos (Pos.iter xO p d) = Z.pos p * 2 ^ Z.pos d.
Proof.
  induction d as [|d IH] using Pos.peano_ind.
  - simpl. lia.
  - rewrite Pos.iter_succ, Pos2Z.inj_succ, Z.pow_succ_r by lia.
    rewrite Pos2Z.inj_xO, IH. lia.
Qed.

Lemma iter_pos_nat {A} (f : A -> A) p x :
  SpecFloat.iter_pos f p x = Nat.iter (Pos.to_nat p) f x.
Proof.
  revert x. induction p as [p IH|p IH|]; intros x; cbn [SpecFloat.iter_pos].
  - rewrite !IH, Pos2Nat.inj_xI.
    replace (S (2 * Pos.to_nat p)) with (Pos.to_nat p + (Pos.to_nat p + 1))%nat by lia.
    rewrite !Nat.iter_add. by simpl.
  - rewrite !IH, Pos2Nat.inj_xO.
    replace (2 * Pos.to_nat p)%nat with (Pos.to_nat p + Pos.to_nat p)%nat by lia.
    by rewrite Nat.iter_add.
  - done.
Qed.

Lemma shr_1_spec mrs :
  0 <= shr_m mrs ->
  shr_m (shr_1 mrs) = shr_m mrs / 2 /\ shr_r (shr_1 mrs) = Z.odd (shr_m mrs).
Proof.
  destruct mrs as [m r s]. simpl. intros Hm.
  destruct m as [|[p|p|]|p]; simpl; try lia; try done.
  - split; [|done]. rewrite Pos2Z.inj_xI.
    apply (Z.div_unique _ _ _ 1); lia.
  - split; [|done]. rewrite Pos2Z.inj_xO.
    apply (Z.div_unique _ _ _ 0); lia.
Qed.

(** [k+1] steps of the right shift: the quotient and the last bit shifted out *)
Lemma shr_iter_spec k m r s :
  0 <= m ->
  shr_m (Nat.iter (S k) shr_1 {| shr_m := m; shr_r := r; shr_s := s |})
    = m / 2 ^ Z.of_nat (S k)
  /\ shr_r (Nat.iter (S k) shr_1 {| shr_m := m; shr_r := r; shr_s := s |})
    = Z.odd (m / 2 ^ Z.of_nat k).
Proof.
  intros Hm. induction k as [|k [IHm IHr]].
  - change (Nat.iter 1 shr_1 ?x) with (shr_1 x).
    destruct (shr_1_spec {| shr_m := m; shr_r := r; shr_s := s |}) as [H1 H2]; [done|].
    rewrite H1, H2. cbn [shr_m]. change (2 ^ Z.of_nat 0) with 1.
    change (2 ^ Z.of_nat 1) with 2. by rewrite Z.div_1_r.
  - change (Nat.iter (S (S k)) shr_1 ?x) with (shr_1 (Nat.iter (S k) shr_1 x)).
    destruct (shr_1_spec (Nat.iter (S k) shr_1 {| shr_m := m; shr_r := r; shr_s := s |}))
      as [H1 H2].
    + rewrite IHm. apply Z.div_pos; [done|]. apply Z.pow_pos_nonneg; lia.
    + rewrite H1, H2, IHm. split; [|done].
      rewrite Z.div_div by (try apply Z.pow_pos_nonneg; lia).
      f_equal. rewrite (Nat2Z.inj_succ (S k)), Z.pow_succ_r by lia. lia.
Qed.

Lemma shr_fexp_normal m e :
  Z.pos (digits2_pos m) = 53 -> -1074 <= e ->
  shr_fexp prec emax (Z.pos m) e loc_Exact
  = ({| shr_m := Z.pos m; shr_r := false; shr_s := false |}, e).
Proof.
  intros Hd He. unfold shr_fexp. cbn [Zdigits2 shr_record_of_loc]. rewrite Hd.
  unfold fexp, emin, prec, emax.
  replace (Z.max (53 + e - 53) (3 - 1024 - 53) - e) with 0 by lia.
  reflexivity.
Qed.

Lemma shr_fexp_shift m e n :
  Z.pos (digits2_pos m) = 53 + Z.pos n -> -1074 <= e + Z.pos n ->
  shr_fexp prec emax (Z.pos m) e loc_Exact
  = (Nat.iter (Pos.to_nat n) shr_1 {| shr_m := Z.pos m; shr_r := false; shr_s := false |},
     e + Z.pos n).
Proof.
  intros Hd He. unfold shr_fexp. cbn [Zdigits2 shr_record_of_loc]. rewrite Hd.
  unfold fexp, emin, prec, emax.
  replace (Z.max (53 + Z.pos n + e - 53) (3 - 1024 - 53) - e) with (Z.pos n) by lia.
  unfold shr. by rewrite iter_pos_nat.
Qed.

(** Rounding a mantissa that already has 53 bits changes nothing. *)
Lemma binary_round_aux_normal sx m e :
  Z.pos (digits2_pos m) = 53 -> -1074 <= e <= 971 ->
  binary_round_aux prec emax sx (Z.pos m) e loc_Exact = S754_finite sx m e.
Proof.
  intros Hd He. unfold binary_round_aux.
  rewrite shr_fexp_normal by (done || lia).
  cbn [shr_m loc_of_shr_record round_nearest_even].
  rewrite shr_fexp_normal by (done || lia). cbn [shr_m].
  unfold emax, prec. destruct (Z.leb_spec e (1024 - 53)); [done|lia].
Qed.

(** [float64(z)] of a positive [z] below 2^53 is exact: a 53-bit mantissa
    [z * 2^-e] with exponent [e] between -52 and 0. *)
Lemma float64_of_int_pos sx p :
  Z.pos p < 2 ^ 53 ->
  exists m e,
    binary_round prec emax sx p 0 = S754_finite sx m e
    /\ Z.pos (digits2_pos m) = 53 /\ -52 <= e <= 0
    /\ Z.pos m = Z.pos p * 2 ^ (- e)
    /\ Z.pos (digits2_pos p) = 53 + e.
Proof.
  intros Hp. pose proof (digits2_pos_bounds p) as [Hlo Hhi].
  assert (Hd : Z.pos (digits2_pos p) <= 53).
  { destruct (Z.le_gt_cases (Z.pos (digits2_pos p)) 53); [done|].
    assert (2 ^ 53 <= 2 ^ (Z.pos (digits2_pos p) - 1))
      by (apply Z.pow_le_mono_r; lia). lia. }
  unfold binary_round, shl_align.
  assert (Hf : fexp prec emax (Z.pos (digits2_pos p) + 0) = Z.pos (digits2_pos p) - 53)
    by (unfold fexp, emin, prec, emax; lia).
  rewrite Hf, Z.sub_0_r.
  destruct (Z.pos (digits2_pos p) - 53) as [|k|k] eqn:Hk; [|lia|].
  - exists p, 0. rewrite (binary_round_aux_normal sx p 0) by lia.
    split; [done|]. split; [lia|]. split; [lia|]. split; [|lia].
    change (2 ^ (- 0)) with 1. lia.
  - assert (Hm : Z.pos (Pos.iter xO p k) = Z.pos p * 2 ^ Z.pos k) by apply iter_xO.
    assert (Hdm : Z.pos (digits2_pos (Pos.iter xO p k)) = 53).
    { apply digits2_pos_unique. rewrite Hm.
      assert (E1 : 2 ^ (53 - 1) = 2 ^ (Z.pos (digits2_pos p) - 1) * 2 ^ Z.pos k)
        by (rewrite <- Z.pow_add_r by lia; f_equal; lia).
      assert (E2 : 2 ^ 53 = 2 ^ Z.pos (digits2_pos p) * 2 ^ Z.pos k)
        by (rewrite <- Z.pow_add_r by lia; f_equal; lia).
      rewrite E1, E2.
      assert (0 < 2 ^ Z.pos k) by (apply Z.pow_pos_nonneg; lia).
      split; [apply Z.mul_le_mono_nonneg_r|apply Z.mul_lt_mono_pos_r]; lia. }
    exists (Pos.iter xO p k), (Z.neg k).
    rewrite binary_round_aux_normal by lia.
    split; [done|]. split; [done|]. split; [lia|]. split; [|lia].
    by rewrite Hm.
Qed.

Lemma round_nearest_even_shr m r s :
  let v := round_nearest_even m
             (loc_of_shr_record {| shr_m := m; shr_r := r; shr_s := s |}) in
  v = m ∨ (v = m + 1 /\ r = true).
Proof.
  destruct r, s; simpl; auto. destruct (Z.even m); auto.
Qed.

(** Rounding a mantissa of [53 + n] bits to 53 bits: the result is
    normal, a multiple [v * 2^n] of the dropped weight, and less than that
    weight away from the exact value. *)
Lemma binary_round_aux_shift sx P e n :
  Z.pos (digits2_pos P) = 53 + Z.pos n ->
  -1074 <= e + Z.pos n -> e + Z.pos n + 1 <= 971 ->
  exists m2 e2 v,
    binary_round_aux prec emax sx (Z.pos P) e loc_Exact = S754_finite sx m2 e2
    /\ Z.pos (digits2_pos m2) = 53 /\ e <= e2
    /\ Z.pos m2 * 2 ^ (e2 - e) = v * 2 ^ Z.pos n
    /\ Z.pos P - 2 ^ Z.pos n < v * 2 ^ Z.pos n < Z.pos P + 2 ^ Z.pos n.
Proof.
  intros Hd Hlo Hhi.
  pose proof (digits2_pos_bounds P) as [HPlo HPhi]. rewrite Hd in HPlo, HPhi.
  set (N := 2 ^ Z.pos n). assert (HN : 0 < N) by (apply Z.pow_pos_nonneg; lia).
  set (q := Z.pos P / N).
  assert (Hq : q * N <= Z.pos P < (q + 1) * N).
  { unfold q. pose proof (Z.div_mod (Z.pos P) N) as Hdm.
    pose proof (Z.mod_pos_bound (Z.pos P) N HN). lia. }
  assert (Hqb : 2 ^ 52 <= q < 2 ^ 53).
  { replace (53 + Z.pos n - 1) with (52 + Z.pos n) in HPlo by lia.
    rewrite Z.pow_add_r in HPlo, HPhi by lia. fold N in HPlo, HPhi.
    split; nia. }
  unfold binary_round_aux. rewrite (shr_fexp_shift P e n) by done.
  destruct (Pos2Nat.is_succ n) as [k Hk].
  destruct (shr_iter_spec k (Z.pos P) false false) as [Hm Hr]; [lia|].
  rewrite <- Hk in Hm, Hr. rewrite positive_nat_Z in Hm. fold N in Hm. fold q in Hm.
  destruct (Nat.iter (Pos.to_nat n) shr_1 _) as [m r s].
  cbn [shr_m shr_r] in Hm, Hr. subst m.
  cbn [shr_m].
  pose proof (round_nearest_even_shr q r s) as Hv. cbn zeta in Hv.
  set (v := round_nearest_even q _) in *.
  assert (Hvb : Z.pos P - N < v * N < Z.pos P + N).
  { destruct Hv as [->|[-> ->]]; [lia|]. split; [lia|].
    assert (q * N <> Z.pos P); [|lia]. intros Heq.
    assert (Z.pos P / 2 ^ Z.of_nat k = 2 * q) as Hev.
    { assert (HNk : N = 2 * 2 ^ Z.of_nat k).
      { unfold N. rewrite <- (positive_nat_Z n), Hk, Nat2Z.inj_succ.
        apply Z.pow_succ_r. lia. }
      rewrite <- Heq, HNk.
      replace (q * (2 * 2 ^ Z.of_nat k)) with (2 * q * 2 ^ Z.of_nat k) by lia.
      apply Z.div_mul. apply Z.pow_nonzero; lia. }
    rewrite Hev, Z.odd_mul in Hr. done. }
  assert (Hv' : 2 ^ 52 <= v <= 2 ^ 53) by (destruct Hv as [->|[-> _]]; lia).
  destruct (Z.eq_dec v (2 ^ 53)) as [Hmax|Hnmax].
  - exists (2 ^ 52)%positive, (e + Z.pos n + 1), v.
    assert (Hsh : shr_fexp prec emax v (e + Z.pos n) loc_Exact
                  = ({| shr_m := Z.pos (2 ^ 52); shr_r := false; shr_s := false |},
                     e + Z.pos n + 1)).
    { rewrite Hmax. change (2 ^ 53) with (Z.pos (2 ^ 53)%positive).
      rewrite (shr_fexp_shift (2 ^ 53)%positive (e + Z.pos n) 1)
        by (try reflexivity; lia).
      reflexivity. }
    rewrite Hsh. cbn [shr_m]. unfold emax, prec.
    destruct (Z.leb_spec (e + Z.pos n + 1) (1024 - 53)); [|lia].
    split; [done|]. split; [reflexivity|]. split; [lia|]. split; [|done].
    replace (e + Z.pos n + 1 - e) with (1 + Z.pos n) by lia.
    rewrite Z.pow_add_r by lia. fold N. rewrite Hmax, Pos2Z.inj_pow. lia.
  - destruct v as [|pv|pv]; try lia.
    assert (Hdv : Z.pos (digits2_pos pv) = 53) by (apply digits2_pos_unique; lia).
    exists pv, (e + Z.pos n), (Z.pos pv).
    rewrite shr_fexp_normal by (done || lia). cbn [shr_m].
    unfold emax, prec.
    destruct (Z.leb_spec (e + Z.pos n) (1024 - 53)); [|lia].
    split; [done|]. split; [done|]. split; [lia|]. split; [|done].
    by replace (e + Z.pos n - e) with (Z.pos n) by lia.
Qed.

(** On normal positive numbers the order of float64 is the order of the
    values, here scaled by [2^-E] to integers. *)
Lemma SFleb_normal m1 e1 m2 e2 E :
  Z.pos (digits2_pos m1) = 53 -> Z.pos (digits2_pos m2) = 53 ->
  E <= e1 -> E <= e2 ->
  SFleb (S754_finite false m1 e1) (S754_finite false m2 e2)
  = (Z.pos m1 * 2 ^ (e1 - E) <=? Z.pos m2 * 2 ^ (e2 - E)).
Proof.
  intros Hd1 Hd2 HE1 HE2.
  pose proof (digits2_pos_bounds m1) as [Hlo1 Hhi1]. rewrite Hd1 in Hlo1, Hhi1.
  pose proof (digits2_pos_bounds m2) as [Hlo2 Hhi2]. rewrite Hd2 in Hlo2, Hhi2.
  change (2 ^ (53 - 1)) with 4503599627370496 in *.
  change (2 ^ 53) with 9007199254740992 in *.
  unfold SFleb, SFcompare.
  destruct (Z.compare_spec e1 e2) as [->|Hlt|Hgt].
  - assert (0 < 2 ^ (e2 - E)) by (apply Z.pow_pos_nonneg; lia).
    change (Pos.compare_cont Eq m1 m2) with (Z.pos m1 ?= Z.pos m2).
    destruct (Z.compare_spec (Z.pos m1) (Z.pos m2));
      destruct (Z.leb_spec (Z.pos m1 * 2 ^ (e2 - E)) (Z.pos m2 * 2 ^ (e2 - E)));
      try done; nia.
  - assert (HT : 0 < 2 ^ (e1 - E)) by (apply Z.pow_pos_nonneg; lia).
    assert (2 ^ (e2 - E) = 2 ^ (e1 - E) * 2 ^ (e2 - e1)) as ->
      by (rewrite <- Z.pow_add_r by lia; f_equal; lia).
    assert (2 ^ 1 <= 2 ^ (e2 - e1)) by (apply Z.pow_le_mono_r; lia).
    change (2 ^ 1) with 2 in *.
    destruct (Z.leb_spec (Z.pos m1 * 2 ^ (e1 - E))
                (Z.pos m2 * (2 ^ (e1 - E) * 2 ^ (e2 - e1)))); [done|].
    set (T := 2 ^ (e1 - E)) in *. set (U := T * 2 ^ (e2 - e1)) in *.
    assert (2 * T <= U) by (unfold U; nia).
    assert (Z.pos m1 * T < 9007199254740992 * T) by nia.
    assert (4503599627370496 * U <= Z.pos m2 * U) by nia. lia.
  - assert (HT : 0 < 2 ^ (e2 - E)) by (apply Z.pow_pos_nonneg; lia).
    assert (2 ^ (e1 - E) = 2 ^ (e2 - E) * 2 ^ (e1 - e2)) as ->
      by (rewrite <- Z.pow_add_r by lia; f_equal; lia).
    assert (2 ^ 1 <= 2 ^ (e1 - e2)) by (apply Z.pow_le_mono_r; lia).
    change (2 ^ 1) with 2 in *.
    destruct (Z.leb_spec (Z.pos m1 * (2 ^ (e2 - E) * 2 ^ (e1 - e2)))
                (Z.pos m2 * 2 ^ (e2 - E))); [|done].
    set (T := 2 ^ (e2 - E)) in *. set (U := T * 2 ^ (e1 - e2)) in *.
    assert (2 * T <= U) by (unfold U; nia).
    assert (Z.pos m2 * T < 9007199254740992 * T) by nia.
    assert (4503599627370496 * U <= Z.pos m1 * U) by nia. lia.
Qed.

(** The test of the loop, [float64(jfRuntime) >= float64(accum)*0.85],
    decides [accum * 17/20 <= jfRuntime] exactly, for an accumulated
    runtime from 0 up to 2^48 and an observed runtime of magnitude below
    2^53. *)
Theorem longEnough_exact jfRuntime accum :
  0 <= accum < 2 ^ 48 -> - 2 ^ 53 < jfRuntime < 2 ^ 53 ->
  tvdb.longEnough jfRuntime accum = (17 * accum <=? 20 * jfRuntime).
Proof.
  intros Hacc Hjf.
  change (2 ^ 48) with 281474976710656 in Hacc.
  change (2 ^ 53) with 9007199254740992 in Hjf.
  unfold tvdb.longEnough, float64_ge, float64_mul, float64_of_int, binary_normalize.
  destruct accum as [|pa|pa]; [| |lia].
  - cbn [SFmul const_0_85 xorb].
    destruct jfRuntime as [|pj|pj].
    + reflexivity.
    + destruct (float64_of_int_pos false pj) as (m & e & -> & _); [|reflexivity].
      change (2 ^ 53) with 9007199254740992. lia.
    + destruct (float64_of_int_pos true pj) as (m & e & -> & _); [|reflexivity].
      change (2 ^ 53) with 9007199254740992. lia.
  - destruct (float64_of_int_pos false pa)
      as (m1 & e1 & -> & Hd1 & He1 & Hm1 & Hda).
    { change (2 ^ 53) with 9007199254740992. lia. }
    unfold const_0_85. cbn [SFmul xorb].
    set (M := 7656119366529843%positive).
    pose proof (digits2_pos_bounds m1) as [Hlo1 Hhi1]. rewrite Hd1 in Hlo1, Hhi1.
    change (2 ^ (53 - 1)) with 4503599627370496 in Hlo1.
    change (2 ^ 53) with 9007199254740992 in Hhi1.
    assert (HP : Z.pos (m1 * M) = Z.pos m1 * 7656119366529843) by reflexivity.
    assert (Hn : Z.pos (digits2_pos (m1 * M)) = 53 + 52
                 ∨ Z.pos (digits2_pos (m1 * M)) = 53 + 53).
    { pose proof (digits2_pos_bounds (m1 * M)) as [HPlo HPhi]. rewrite HP in HPlo, HPhi.
      set (d := Z.pos (digits2_pos (m1 * M))) in *.
      assert (104 < d).
      { destruct (Z.lt_ge_cases 104 d); [done|].
        assert (2 ^ d <= 2 ^ 104) by (apply Z.pow_le_mono_r; lia).
        change (2 ^ 104) with 20282409603651670423947251286016 in *. lia. }
      assert (d - 1 < 106).
      { destruct (Z.lt_ge_cases (d - 1) 106); [done|].
        assert (2 ^ 106 <= 2 ^ (d - 1)) by (apply Z.pow_le_mono_r; lia).
        change (2 ^ 106) with 81129638414606681695789005144064 in *. lia. }
      lia. }
    assert (HA : 32 <= 2 ^ (- e1)).
    { pose proof (digits2_pos_bounds pa) as [Hlo _]. rewrite Hda in Hlo.
      assert (53 + e1 - 1 < 48).
      { destruct (Z.lt_ge_cases (53 + e1 - 1) 48); [done|].
        assert (2 ^ 48 <= 2 ^ (53 + e1 - 1)) by (apply Z.pow_le_mono_r; lia).
        change (2 ^ 48) with 281474976710656 in *. lia. }
      change 32 with (2 ^ 5). apply Z.pow_le_mono_r; lia. }
    set (A := 2 ^ (- e1)) in *.
    assert (Hround : exists m2 e2 v N,
      binary_round_aux prec emax false (Z.pos (m1 * M)) (e1 + -53) loc_Exact
        = S754_finite false m2 e2
      /\ Z.pos (digits2_pos m2) = 53 /\ e1 + -53 <= e2
      /\ Z.pos m2 * 2 ^ (e2 - (e1 + -53)) = v * N
      /\ Z.pos (m1 * M) - N < v * N < Z.pos (m1 * M) + N
      /\ (N = 2 ^ 52 ∨ N = 2 ^ 53)).
    { destruct Hn as [Hn|Hn].
      - destruct (binary_round_aux_shift false (m1 * M) (e1 + -53) 52)
          as (m2 & e2 & v & ? & ? & ? & ? & ?); [done|lia|lia|].
        exists m2, e2, v, (2 ^ 52). auto 10.
      - destruct (binary_round_aux_shift false (m1 * M) (e1 + -53) 53)
          as (m2 & e2 & v & ? & ? & ? & ? & ?); [done|lia|lia|].
        exists m2, e2, v, (2 ^ 53). auto 10. }
    destruct Hround as (m2 & e2 & v & N & -> & Hd2 & He2 & Hv & Hvb & HN).
    destruct jfRuntime as [|pj|pj].
    + cbn. symmetry. apply Z.leb_gt. lia.
    + destruct (float64_of_int_pos false pj) as (mj & ej & -> & Hdj & Hej & Hmj & _).
      { change (2 ^ 53) with 9007199254740992. lia. }
      rewrite (SFleb_normal m2 e2 mj ej (e1 + -53)) by lia.
      rewrite Hv, Hmj.
      assert (HY : Z.pos pj * 2 ^ (- ej) * 2 ^ (ej - (e1 + -53))
                   = Z.pos pj * A * 9007199254740992).
      { rewrite <- Z.mul_assoc, <- Z.pow_add_r by lia.
        replace (- ej + (ej - (e1 + -53))) with (- e1 + 53) by lia.
        rewrite Z.pow_add_r by lia. fold A.
        change (2 ^ 53) with 9007199254740992. lia. }
      rewrite HY. rewrite HP in Hvb. rewrite Hm1 in Hvb. fold A in Hvb.
      set (X := Z.pos pa * A) in *. set (Y := Z.pos pj * A) in *.
      assert (HX : X < 9007199254740992) by lia.
      assert (HX0 : 0 < X) by lia.
      change (2 ^ 52) with 4503599627370496 in HN.
      change (2 ^ 53) with 9007199254740992 in HN.
      destruct (Z.leb_spec (17 * Z.pos pa) (20 * Z.pos pj)) as [Hle|Hgt].
      * assert (17 * Z.pos pa * A <= 20 * Z.pos pj * A)
          by (apply Z.mul_le_mono_nonneg_r; lia).
        assert (17 * X <= 20 * Y) by (unfold X, Y; lia).
        apply Z.leb_le. destruct HN as [-> | ->]; lia.
      * assert (20 * Z.pos pj * A <= (17 * Z.pos pa - 1) * A)
          by (apply Z.mul_le_mono_nonneg_r; lia).
        assert (20 * Y <= 17 * X - A) by (unfold X, Y; lia).
        apply Z.leb_gt. destruct HN as [-> | ->]; lia.
    + destruct (float64_of_int_pos true pj) as (mj & ej & -> & _).
      { change (2 ^ 53) with 9007199254740992. lia. }
      cbn. symmetry. apply Z.leb_gt. lia.
Qed.

End Float64.

(** * Properties of the merge detector *)

Section MergeDetector.
Import tvdb.
Variable jf : gmap string Z.
Variable cs : bool.

Lemma withMissing_id st : withMissing st (missing st) = st.
Proof. by destruct st. Qed.

Lemma scanStep_present now st ep r :
  jf !! episodeKey ep = Some r ->
  scanStep jf cs now st ep =
    {| chainActive := true; chainSeason := SeasonNumber ep; chainJfRuntime := r;
       chainTvdbRuntimeAccum := RuntimeMinutes ep; missing := missing st |}.
Proof. intros H. unfold scanStep. by rewrite H. Qed.

Lemma scanStep_skip now st ep :
  jf !! episodeKey ep = None -> candidate cs now ep = false ->
  scanStep jf cs now st ep = st.
Proof. intros H Hc. unfold scanStep. rewrite H. unfold candidate in Hc. by rewrite Hc. Qed.

Lemma scanStep_fold now st ep :
  jf !! episodeKey ep = None -> candidate cs now ep = true -> folds st ep = true ->
  scanStep jf cs now st ep =
    {| chainActive := true; chainSeason := chainSeason st;
       chainJfRuntime := chainJfRuntime st;
       chainTvdbRuntimeAccum :=
         golang.int_add (chainTvdbRuntimeAccum st) (RuntimeMinutes ep);
       missing := missing st |}.
Proof.
  intros H Hc Hf. unfold scanStep. rewrite H. unfold candidate in Hc. rewrite Hc.
  unfold folds in Hf. apply andb_prop in Hf as [Hf Hl].
  unfold mergeCheck. rewrite Hf, Hl. simpl.
  apply andb_prop in Hf as [-> _]. done.
Qed.

Lemma scanStep_emit now st ep :
  jf !! episodeKey ep = None -> candidate cs now ep = true -> folds st ep = false ->
  missing (scanStep jf cs now st ep) = missing st ++ [missingOf ep]
  /\ chainActive (scanStep jf cs now st ep) = false.
Proof.
  intros H Hc Hf. unfold scanStep. rewrite H. unfold candidate in Hc. rewrite Hc.
  unfold folds in Hf. unfold mergeCheck.
  destruct (chainActive st && (chainSeason st =? SeasonNumber ep)); simpl in *.
  - rewrite Hf. by simpl.
  - done.
Qed.

(** The chain variables never depend on the result slice, and the slice
    only grows at its end. *)
Lemma scanStep_withMissing now st ep ms :
  scanStep jf cs now (withMissing st ms) ep =
  withMissing (scanStep jf cs now st ep)
    (ms ++ missing (scanStep jf cs now (withMissing st []) ep)).
Proof.
  unfold scanStep. destruct (jf !! episodeKey ep); simpl.
  - by rewrite app_nil_r.
  - destruct (_ && airedBefore now ep); simpl; [|by rewrite app_nil_r].
    unfold mergeCheck; simpl.
    destruct (chainActive st && _); simpl;
      [destruct (longEnough _ _); simpl|]; unfold withMissing; simpl;
      by rewrite ?app_nil_r.
Qed.

Lemma scanFrom_withMissing nowAt i st eps ms :
  scanFrom jf cs nowAt i (withMissing st ms) eps =
  withMissing (scanFrom jf cs nowAt i st eps)
    (ms ++ missing (scanFrom jf cs nowAt i (withMissing st []) eps)).
Proof.
  revert i st ms. induction eps as [|ep eps IH]; intros i st ms; simpl.
  - by rewrite app_nil_r.
  - pose proof (scanStep_withMissing (nowAt i) st ep ms) as Hms.
    pose proof (scanStep_withMissing (nowAt i) st ep []) as Hnil.
    set (a := missing (scanStep jf cs (nowAt i) (withMissing st []) ep)) in *.
    simpl in Hnil. rewrite Hms, Hnil.
    rewrite (IH _ _ (ms ++ a)), (IH _ _ a).
    unfold withMissing; simpl. by rewrite app_assoc.
Qed.

Lemma scanFrom_app nowAt i st l1 l2 :
  scanFrom jf cs nowAt i st (l1 ++ l2) =
  scanFrom jf cs nowAt (i + length l1) (scanFrom jf cs nowAt i st l1) l2.
Proof.
  revert i st. induction l1 as [|e l1 IH]; intros i st; simpl.
  - by rewrite Nat.add_0_r.
  - rewrite IH. by replace (S i + length l1)%nat with (i + S (length l1))%nat by lia.
Qed.

Lemma scanFrom_missing nowAt i st eps :
  missing (scanFrom jf cs nowAt i st eps) = missing st ++ emitted jf cs nowAt i st eps.
Proof.
  rewrite <- (withMissing_id st) at 1. by rewrite scanFrom_withMissing.
Qed.

(** Only an episode found locally can activate the chain. *)
Lemma scanFrom_stays_inactive nowAt i st eps :
  chainActive st = false ->
  Forall (fun ep => jf !! episodeKey ep = None) eps ->
  chainActive (scanFrom jf cs nowAt i st eps) = false.
Proof.
  intros Hst Habs. revert i st Hst.
  induction Habs as [|ep eps Hep _ IH]; intros i st Hst; simpl; [done|].
  apply IH. unfold scanStep. rewrite Hep.
  destruct (_ && airedBefore _ ep); [|done].
  unfold mergeCheck. rewrite Hst. by simpl.
Qed.

(** The clock enters an iteration only through the verdict of
    [airedBefore], and only for an absent episode that passes the
    specials test. *)
Lemma scanStep_clock now1 now2 st ep :
  (jf !! episodeKey ep = None -> SeasonNumber ep ≠ 0 ∨ cs = true ->
   airedBefore now1 ep = airedBefore now2 ep) ->
  scanStep jf cs now1 st ep = scanStep jf cs now2 st ep.
Proof.
  intros H. unfold scanStep. destruct (jf !! episodeKey ep); [done|].
  destruct (SeasonNumber ep =? 0) eqn:Hs; simpl.
  - destruct cs; simpl; [|done]. rewrite H; auto.
  - rewrite H; auto. left. by apply Z.eqb_neq.
Qed.

Lemma airedBefore_false now ep :
  airedBefore now ep = false <->
  time.Parse_2006_01_02 (Aired ep) = None
  ∨ (exists airDate, time.Parse_2006_01_02 (Aired ep) = Some airDate /\ now <= airDate).
Proof.
  unfold airedBefore, time.Before.
  destruct (time.Parse_2006_01_02 (Aired ep)) as [t|].
  - rewrite Z.ltb_ge. split; [eauto|]. intros [?|(t' & [= ->] & ?)]; done.
  - split; auto.
Qed.

(** An air date on an earlier UTC day than the clock's is before it. *)
Lemma earlier_day_airedBefore now ep airDate :
  time.Parse_2006_01_02 (Aired ep) = Some airDate ->
  time.utcDay airDate < time.utcDay now ->
  airedBefore now ep = true.
Proof.
  intros Hp Hd. unfold airedBefore, time.Before. rewrite Hp.
  apply Z.ltb_lt. unfold time.utcDay in Hd.
  destruct (Z.lt_ge_cases airDate now) as [|Hge]; [done|].
  apply (Z.div_le_mono _ _ time.nsPerDay) in Hge; [lia|done].
Qed.

(** An air date on a later UTC day than the clock's is not before it. *)
Lemma later_day_not_aired now ep airDate :
  time.Parse_2006_01_02 (Aired ep) = Some airDate ->
  time.utcDay now < time.utcDay airDate ->
  airedBefore now ep = false.
Proof.
  intros Hp Hd. unfold airedBefore, time.Before. rewrite Hp.
  apply Z.ltb_ge. unfold time.utcDay in Hd.
  destruct (Z.le_gt_cases now airDate) as [|Hgt]; [done|].
  assert (airDate <= now) as Hle by lia.
  apply (Z.div_le_mono _ _ time.nsPerDay) in Hle; [lia|done].
Qed.

Lemma scanFrom_ext nowAt1 nowAt2 i j st eps :
  (forall k, (k < length eps)%nat -> nowAt1 (i + k)%nat = nowAt2 (j + k)%nat) ->
  scanFrom jf cs nowAt1 i st eps = scanFrom jf cs nowAt2 j st eps.
Proof.
  revert i j st. induction eps as [|ep eps IH]; intros i j st H; simpl; [done|].
  assert (H0 : nowAt1 i = nowAt2 j).
  { specialize (H 0%nat). rewrite !Nat.add_0_r in H. apply H. simpl; lia. }
  rewrite H0. apply IH. intros k Hk. rewrite !Nat.add_succ_l, <- !Nat.add_succ_r.
  apply H. simpl; lia.
Qed.

Lemma wrap64_small z : - 2 ^ 63 <= z < 2 ^ 63 -> golang.wrap64 z = z.
Proof.
  intros Hz. unfold golang.wrap64.
  change (2 ^ 63) with 9223372036854775808 in *.
  change (2 ^ 64) with 18446744073709551616.
  rewrite Z.mod_small; lia.
Qed.

(** In exact arithmetic: while the accumulated expected runtime stays
    within 0 .. 2^48 minutes and the observed runtime below 2^53, the
    merge test is [17/20 * (accumulated + this episode) <= observed]. *)
Lemma folds_exact st ep :
  0 <= chainTvdbRuntimeAccum st + RuntimeMinutes ep < 2 ^ 48 ->
  - 2 ^ 53 < chainJfRuntime st < 2 ^ 53 ->
  folds st ep = true <->
  chainActive st = true /\ chainSeason st = SeasonNumber ep
  /\ 17 * (chainTvdbRuntimeAccum st + RuntimeMinutes ep) <= 20 * chainJfRuntime st.
Proof.
  intros Hacc Hjf. unfold folds, golang.int_add.
  rewrite wrap64_small.
  - rewrite longEnough_exact by done.
    rewrite !andb_true_iff, Z.eqb_eq, Z.leb_le. tauto.
  - change (2 ^ 48) with 281474976710656 in Hacc.
    change (2 ^ 63) with 9223372036854775808. lia.
Qed.

(** *** The merge rule *)

(** C1: an absent candidate aired before the clock reading -- in
    particular one aired strictly in the past, see
    [earlier_day_airedBefore] -- is left out of the result exactly when
    the chain is active, is of the episode's season, and the observed
    runtime is at least 0.85 times the accumulated expected runtime
    including this episode ([folds]: the float64 test of the code, which
    is the exact comparison for runtimes below 2^48 minutes); the chain
    then stays active with the same season and observed runtime.
    Otherwise the episode is appended as a [MissingEpisode] and the chain
    is deactivated, and stays so over any run of locally absent
    episodes. *)
Theorem candidate_folded_iff_chain_covers nowAt pre ep post :
  let st := scanFrom jf cs nowAt 0 scanInit pre in
  let st' := scanStep jf cs (nowAt (length pre)) st ep in
  jf !! episodeKey ep = None ->
  SeasonNumber ep ≠ 0 ∨ cs = true ->
  airedBefore (nowAt (length pre)) ep = true ->
  (folds st ep = true <->
     chainActive st = true /\ chainSeason st = SeasonNumber ep
     /\ longEnough (chainJfRuntime st)
          (golang.int_add (chainTvdbRuntimeAccum st) (RuntimeMinutes ep)) = true)
  /\ (0 <= chainTvdbRuntimeAccum st + RuntimeMinutes ep < 2 ^ 48 ->
      - 2 ^ 53 < chainJfRuntime st < 2 ^ 53 ->
      (folds st ep = true <->
         chainActive st = true /\ chainSeason st = SeasonNumber ep
         /\ 17 * (chainTvdbRuntimeAccum st + RuntimeMinutes ep)
            <= 20 * chainJfRuntime st))
  /\ FindMissingEpisodes nowAt (pre ++ ep :: post) jf cs =
       FindMissingEpisodes nowAt pre jf cs
       ++ (if folds st ep then [] else [missingOf ep])
       ++ emitted jf cs nowAt (S (length pre)) st' post
  /\ (folds st ep = true ->
        chainOf st' =
          (true, chainSeason st, chainJfRuntime st,
           golang.int_add (chainTvdbRuntimeAccum st) (RuntimeMinutes ep)))
  /\ (folds st ep = false ->
        chainActive st' = false
        /\ forall absent,
             Forall (fun ep' => jf !! episodeKey ep' = None) absent ->
             chainActive (scanFrom jf cs nowAt (S (length pre)) st' absent) = false).
Proof.
  intros st st' Habs Hspec Hair.
  assert (Hc : candidate cs (nowAt (length pre)) ep = true).
  { unfold candidate. rewrite Hair, andb_true_r.
    destruct Hspec as [Hs| ->]; [|by rewrite orb_true_r].
    apply Z.eqb_neq in Hs. by rewrite Hs. }
  split; [|split; [|split; [|split]]].
  - unfold folds. rewrite !andb_true_iff, Z.eqb_eq. tauto.
  - apply folds_exact.
  - unfold FindMissingEpisodes, FindMissingEpisodes_at.
    rewrite scanFrom_app. simpl. fold st. fold st'.
    rewrite scanFrom_missing.
    destruct (folds st ep) eqn:Hf.
    + subst st'. rewrite scanStep_fold by done. by simpl.
    + subst st'. destruct (scanStep_emit _ _ _ Habs Hc Hf) as [-> _].
      by rewrite <- app_assoc.
  - intros Hf. subst st'. by rewrite scanStep_fold.
  - intros Hf. destruct (scanStep_emit _ _ _ Habs Hc Hf) as [_ Hina].
    split; [done|]. intros absent Hall. by apply scanFrom_stays_inactive.
Qed.

(** *** Clock dependence *)

Lemma scanFrom_clock nowAt1 nowAt2 i st eps :
  (forall k ep, eps !! k = Some ep ->
     jf !! episodeKey ep = None -> SeasonNumber ep ≠ 0 ∨ cs = true ->
     airedBefore (nowAt1 (i + k)%nat) ep = airedBefore (nowAt2 (i + k)%nat) ep) ->
  scanFrom jf cs nowAt1 i st eps = scanFrom jf cs nowAt2 i st eps.
Proof.
  revert i st. induction eps as [|ep eps IH]; intros i st H; simpl; [done|].
  rewrite (scanStep_clock (nowAt1 i) (nowAt2 i)).
  - apply IH. intros k ep' Hk. rewrite !Nat.add_succ_l, <- !Nat.add_succ_r.
    by apply H.
  - specialize (H 0%nat ep). rewrite Nat.add_0_r in H. by apply H.
Qed.

(** C3 (amended): the result is a function of the three arguments and of
    the verdicts of the clock.  Two runs on the same arguments whose
    readings of [time.Now()] place the air date of every absent episode
    that passes the specials test on the same side of "now" return the
    same slice; in particular two runs with the same readings do. *)
Theorem FindMissingEpisodes_determined_by_clock_verdicts nowAt1 nowAt2 eps :
  (forall i ep, eps !! i = Some ep ->
     jf !! episodeKey ep = None -> SeasonNumber ep ≠ 0 ∨ cs = true ->
     airedBefore (nowAt1 i) ep = airedBefore (nowAt2 i) ep) ->
  FindMissingEpisodes nowAt1 eps jf cs = FindMissingEpisodes nowAt2 eps jf cs.
Proof.
  intros H. unfold FindMissingEpisodes, FindMissingEpisodes_at.
  by rewrite (scanFrom_clock nowAt1 nowAt2).
Qed.

(** *** Episodes that are not yet due *)

(** C4 (amended): an absent episode whose air date does not parse, or
    whose air date -- midnight UTC of that day -- is not before the clock
    reading, changes nothing: the iteration returns the state it was
    given, chain variables and result slice alike, and the whole run
    returns what the run without that episode returns. *)
Theorem not_aired_episode_is_skipped nowAt pre ep post :
  jf !! episodeKey ep = None ->
  time.Parse_2006_01_02 (Aired ep) = None
  ∨ (exists airDate, time.Parse_2006_01_02 (Aired ep) = Some airDate
                     /\ nowAt (length pre) <= airDate) ->
  (forall st, scanStep jf cs (nowAt (length pre)) st ep = st)
  /\ FindMissingEpisodes nowAt (pre ++ ep :: post) jf cs =
     FindMissingEpisodes (skipAt (length pre) nowAt) (pre ++ post) jf cs.
Proof.
  intros Habs Hdate. apply airedBefore_false in Hdate.
  assert (Hskip : forall st, scanStep jf cs (nowAt (length pre)) st ep = st).
  { intros st. apply scanStep_skip; [done|].
    unfold candidate. by rewrite Hdate, andb_false_r. }
  split; [done|].
  unfold FindMissingEpisodes, FindMissingEpisodes_at.
  rewrite !scanFrom_app. simpl. rewrite Hskip. f_equal.
  rewrite (scanFrom_ext nowAt (skipAt (length pre) nowAt) 0 0 scanInit pre).
  - apply scanFrom_ext. intros k _. unfold skipAt.
    destruct (Nat.ltb_spec (length pre + k) (length pre)); [lia|done].
  - intros k Hk. unfold skipAt. simpl.
    by destruct (Nat.ltb_spec k (length pre)); [|lia].
Qed.

(** *** Nothing present locally *)

Lemma scanFrom_all_absent nowAt i st eps :
  chainActive st = false ->
  Forall (fun ep => jf !! episodeKey ep = None) eps ->
  (forall k ep, eps !! k = Some ep -> airedBefore (nowAt (i + k)%nat) ep = true) ->
  missing (scanFrom jf cs nowAt i st eps) =
  missing st
  ++ map missingOf (List.filter (fun ep => negb (SeasonNumber ep =? 0) || cs) eps).
Proof.
  intros Hst Habs. revert i st Hst.
  induction Habs as [|ep eps Hep _ IH]; intros i st Hst Hair; simpl.
  - by rewrite app_nil_r.
  - assert (Ha : airedBefore (nowAt i) ep = true).
    { specialize (Hair 0%nat ep). rewrite Nat.add_0_r in Hair. by apply Hair. }
    assert (Hrest : forall k ep', eps !! k = Some ep' ->
               airedBefore (nowAt (S i + k)%nat) ep' = true).
    { intros k ep' Hk. rewrite Nat.add_succ_l, <- Nat.add_succ_r. by apply Hair. }
    destruct (negb (SeasonNumber ep =? 0) || cs) eqn:Hs.
    + assert (Hc : candidate cs (nowAt i) ep = true).
      { unfold candidate. by rewrite Hs, Ha. }
      assert (Hf : folds st ep = false) by (unfold folds; by rewrite Hst).
      destruct (scanStep_emit (nowAt i) st ep Hep Hc Hf) as [Hm Hina].
      rewrite IH, Hm by done. simpl. by rewrite <- app_assoc.
    + rewrite scanStep_skip; [by apply IH|done|].
      unfold candidate. by rewrite Hs.
Qed.

(** C8: when no episode of the sequence is present locally and every air
    date parses and is before the clock reading (as every date of an
    earlier UTC day is), the result is the sequence of all episodes of a
    season other than 0 when specials are left out, and the sequence of
    all episodes when they are included. *)
Theorem nothing_local_reports_all_due nowAt eps :
  Forall (fun ep => jf !! episodeKey ep = None) eps ->
  (forall i ep, eps !! i = Some ep -> airedBefore (nowAt i) ep = true) ->
  (cs = false ->
     FindMissingEpisodes nowAt eps jf cs =
     map missingOf (filter (fun ep => SeasonNumber ep ≠ 0) eps))
  /\ (cs = true -> FindMissingEpisodes nowAt eps jf cs = map missingOf eps).
Proof.
  intros Habs Hair.
  assert (H : FindMissingEpisodes nowAt eps jf cs =
    map missingOf (List.filter (fun ep => negb (SeasonNumber ep =? 0) || cs) eps)).
  { unfold FindMissingEpisodes, FindMissingEpisodes_at.
    by rewrite (scanFrom_all_absent nowAt 0 scanInit eps). }
  split; intros Hcs; rewrite H, Hcs; f_equal; clear.
  - induction eps as [|ep eps IH]; [done|]. simpl.
    rewrite filter_cons, orb_false_r.
    destruct (Z.eqb_spec (SeasonNumber ep) 0); simpl;
      case_decide; try done; by rewrite IH.
  - induction eps as [|ep eps IH]; [done|]. simpl.
    by rewrite orb_true_r, IH.
Qed.

(** *** Shape of the result *)

Lemma scanFrom_selects nowAt i st eps :
  exists sel,
    sel `sublist_of` eps
    /\ Forall (fun ep => jf !! episodeKey ep = None) sel
    /\ missing (scanFrom jf cs nowAt i st eps) = missing st ++ map missingOf sel.
Proof.
  revert i st. induction eps as [|ep eps IH]; intros i st; simpl.
  - exists []. by rewrite app_nil_r.
  - destruct (IH (S i) (scanStep jf cs (nowAt i) st ep)) as (sel & Hsub & Habs & ->).
    destruct (jf !! episodeKey ep) as [r|] eqn:Hep.
    + exists sel. rewrite (scanStep_present _ _ _ r) by done. simpl.
      split; [by apply sublist_cons|done].
    + destruct (candidate cs (nowAt i) ep) eqn:Hc.
      * destruct (folds st ep) eqn:Hf.
        -- exists sel. rewrite scanStep_fold by done. simpl.
           split; [by apply sublist_cons|done].
        -- exists (ep :: sel).
           destruct (scanStep_emit _ _ _ Hep Hc Hf) as [-> _].
           split; [by apply sublist_skip|]. split; [by constructor|].
           by rewrite <- app_assoc.
      * exists sel. rewrite scanStep_skip by done.
        split; [by apply sublist_cons|done].
Qed.

(** C10: the result is taken, in order, from a subsequence of the input
    made of episodes whose key is not in [jellyfinEpisodes]; each element
    carries the season number, episode number, name, air date string and
    overview of its episode, and an empty [SeriesName]. *)
Theorem FindMissingEpisodes_is_subsequence nowAt eps :
  exists sel,
    sel `sublist_of` eps
    /\ Forall (fun ep => jf !! episodeKey ep = None) sel
    /\ Forall2 (fun m ep =>
          models.SeriesName m = EmptyString
          /\ models.SeasonNumber m = SeasonNumber ep
          /\ models.EpisodeNumber m = Number ep
          /\ models.EpisodeName m = Name ep
          /\ models.AirDate m = Aired ep
          /\ models.Overview m = Overview ep)
         (FindMissingEpisodes nowAt eps jf cs) sel.
Proof.
  destruct (scanFrom_selects nowAt 0 scanInit eps) as (sel & Hsub & Habs & Hm).
  exists sel. split; [done|]. split; [done|].
  unfold FindMissingEpisodes, FindMissingEpisodes_at. rewrite Hm. simpl.
  clear. induction sel; constructor; auto. by simpl.
Qed.

End MergeDetector.

(** *** The threshold at its boundary *)

(** C2: a local episode of expected runtime 100 followed by an absent
    candidate of the same season with expected runtime 20.  With an
    observed runtime of 100 the candidate is reported (100 >= 102 fails);
    with 102 in its place it is folded and nothing is reported. *)
Theorem merge_threshold_boundary nowAt cs (jf : gmap string Z) e1 e2 :
  tvdb.RuntimeMinutes e1 = 100 ->
  tvdb.RuntimeMinutes e2 = 20 ->
  tvdb.SeasonNumber e2 = tvdb.SeasonNumber e1 ->
  tvdb.episodeKey e2 ≠ tvdb.episodeKey e1 ->
  jf !! tvdb.episodeKey e2 = None ->
  tvdb.SeasonNumber e2 ≠ 0 ∨ cs = true ->
  tvdb.airedBefore (nowAt 1%nat) e2 = true ->
  tvdb.FindMissingEpisodes nowAt [e1; e2] (<[tvdb.episodeKey e1 := 100]> jf) cs
    = [tvdb.missingOf e2]
  /\ tvdb.FindMissingEpisodes nowAt [e1; e2] (<[tvdb.episodeKey e1 := 102]> jf) cs
    = [].
Proof.
  intros Hr1 Hr2 Hs Hk Habs Hspec Hair.
  assert (Hc : tvdb.candidate cs (nowAt 1%nat) e2 = true).
  { unfold tvdb.candidate. rewrite Hair, andb_true_r.
    destruct Hspec as [Hne| ->]; [|by rewrite orb_true_r].
    apply Z.eqb_neq in Hne. by rewrite Hne. }
  unfold tvdb.FindMissingEpisodes, tvdb.FindMissingEpisodes_at.
  cbn [tvdb.scanFrom]. split.
  - rewrite (scanStep_present _ _ _ tvdb.scanInit e1 100) by apply lookup_insert_eq.
    apply scanStep_emit; [by rewrite lookup_insert_ne| done |].
    unfold tvdb.folds. simpl. rewrite Hr1, Hr2, Hs, Z.eqb_refl. by vm_compute.
  - rewrite (scanStep_present _ _ _ tvdb.scanInit e1 102) by apply lookup_insert_eq.
    rewrite scanStep_fold; [done | by rewrite lookup_insert_ne | done |].
    unfold tvdb.folds. simpl. rewrite Hr1, Hr2, Hs, Z.eqb_refl. by vm_compute.
Qed.

Lemma merge_threshold_boundary_witness :
  tvdb.FindMissingEpisodes samples.noon [samples.part1; samples.part2]
    (<[tvdb.episodeKey samples.part1 := 100]> ∅) false
    = [tvdb.missingOf samples.part2]
  /\ tvdb.FindMissingEpisodes samples.noon [samples.part1; samples.part2]
    (<[tvdb.episodeKey samples.part1 := 102]> ∅) false
    = [].
Proof.
  apply (merge_threshold_boundary samples.noon false ∅ samples.part1 samples.part2).
  - reflexivity.
  - reflexivity.
  - reflexivity.
  - by vm_compute.
  - by vm_compute.
  - left. by vm_compute.
  - by vm_compute.
Defined.

Lemma candidate_folded_iff_chain_covers_witness :
  let jf : gmap string Z := {[ "1:1"%string := 102 ]} in
  tvdb.FindMissingEpisodes samples.noon ([samples.part1] ++ samples.part2 :: [samples.part3]) jf false
  = tvdb.FindMissingEpisodes samples.noon [samples.part1] jf false ++ [] ++ [].
Proof.
  intros jf.
  assert (Habs : jf !! tvdb.episodeKey samples.part2 = None) by (by vm_compute).
  assert (Hspec : tvdb.SeasonNumber samples.part2 ≠ 0 ∨ false = true)
    by (left; by vm_compute).
  assert (Hair : tvdb.airedBefore (samples.noon (length [samples.part1])) samples.part2
                 = true) by (by vm_compute).
  pose proof (candidate_folded_iff_chain_covers jf false samples.noon
                [samples.part1] samples.part2 [samples.part3] Habs Hspec Hair) as H.
  destruct H as (_ & _ & H & _). rewrite H. by vm_compute.
Defined.

(** C3, as stated, fails: the same three arguments give different results
    under different readings of the clock. *)
Lemma FindMissingEpisodes_depends_on_clock :
  tvdb.FindMissingEpisodes samples.noon [samples.airsToday] ∅ false
  ≠ tvdb.FindMissingEpisodes samples.dayBefore [samples.airsToday] ∅ false.
Proof. by vm_compute. Qed.

Lemma FindMissingEpisodes_determined_by_clock_verdicts_witness :
  tvdb.FindMissingEpisodes samples.noon [samples.part1; samples.part2] ∅ false
  = tvdb.FindMissingEpisodes samples.dayBefore [samples.part1; samples.part2] ∅ false.
Proof.
  apply FindMissingEpisodes_determined_by_clock_verdicts.
  intros [|[|i]] ep [= <-] _ _; by vm_compute.
Defined.

(** C4, as stated, fails: an absent episode whose air date is the clock's
    own UTC day -- "today", not strictly in the past -- is reported. *)
Lemma episode_airing_today_is_reported :
  tvdb.spec_notYetDue (samples.noon 0%nat) samples.airsToday
  /\ (∅ : gmap string Z) !! tvdb.episodeKey samples.airsToday = None
  /\ tvdb.FindMissingEpisodes samples.noon [samples.airsToday] ∅ false
     = [tvdb.missingOf samples.airsToday].
Proof. split; [by vm_compute|]. split; by vm_compute. Qed.

Lemma not_aired_episode_is_skipped_witness :
  let jf : gmap string Z := {[ "1:1"%string := 102 ]} in
  tvdb.FindMissingEpisodes samples.noon
    ([samples.part1] ++ samples.undated :: [samples.part2]) jf false
  = tvdb.FindMissingEpisodes (tvdb.skipAt 1 samples.noon)
    ([samples.part1] ++ [samples.part2]) jf false.
Proof.
  intros jf.
  apply (not_aired_episode_is_skipped jf false samples.noon
           [samples.part1] samples.undated [samples.part2]).
  - by vm_compute.
  - left. by vm_compute.
Defined.

Lemma nothing_local_reports_all_due_witness :
  tvdb.FindMissingEpisodes samples.noon [samples.special; samples.part1] ∅ false
  = map tvdb.missingOf
      (filter (fun ep => tvdb.SeasonNumber ep ≠ 0) [samples.special; samples.part1]).
Proof.
  apply (nothing_local_reports_all_due ∅ false samples.noon
           [samples.special; samples.part1]).
  - repeat constructor; by vm_compute.
  - intros [|[|i]] ep [= <-]; by vm_compute.
  - reflexivity.
Defined.

(** * Properties of the identity resolution and of the restore *)

Section Resolve.
Context {A : Type}.
Implicit Types (providerIdMap : gmap string A) (ids : list (string * string)).

Lemma lookupProviderIDs_first providerIdMap ids pre entry post info :
  ids = pre ++ entry :: post ->
  Forall (fun e => providerIdMap !! jellyfin.providerKey e = None) pre ->
  providerIdMap !! jellyfin.providerKey entry = Some info ->
  main.lookupProviderIDs providerIdMap ids = Some info.
Proof.
  intros -> Hpre Hhit. induction Hpre as [|e pre He _ IH]; simpl.
  - by rewrite Hhit.
  - by rewrite He.
Qed.

Lemma lookupProviderIDs_none providerIdMap ids :
  Forall (fun e => providerIdMap !! jellyfin.providerKey e = None) ids ->
  main.lookupProviderIDs providerIdMap ids = None.
Proof. induction 1 as [|e ids He _ IH]; simpl; [done|by rewrite He]. Qed.

End Resolve.

(** C5: the lookup returns the entry of the provider-key map under the
    first key [provider:id] of the record that has one, whatever the
    secondary map holds; when no provider key of the record is in the map,
    the result is what the secondary map has under the name (movies) or
    under [seasonName:name] (episodes), and "not found" if it has none. *)
Theorem resolve_prefers_first_provider_key (record : models.WatchedItem) :
  (forall providerIdMap nameMap : gmap string jellyfin.MovieInfo,
     (forall pre entry post info,
        models.ProviderIDs record = pre ++ entry :: post ->
        Forall (fun e => providerIdMap !! jellyfin.providerKey e = None) pre ->
        providerIdMap !! jellyfin.providerKey entry = Some info ->
        main.findMovie providerIdMap nameMap record = Some info)
     /\ (Forall (fun e => providerIdMap !! jellyfin.providerKey e = None)
                (models.ProviderIDs record) ->
         main.findMovie providerIdMap nameMap record
         = nameMap !! models.Name record))
  /\ (forall providerIdMap nameSeasonMap : gmap string main.EpisodeInfo,
     (forall pre entry post info,
        models.ProviderIDs record = pre ++ entry :: post ->
        Forall (fun e => providerIdMap !! jellyfin.providerKey e = None) pre ->
        providerIdMap !! jellyfin.providerKey entry = Some info ->
        main.findEpisode providerIdMap nameSeasonMap record = Some info)
     /\ (Forall (fun e => providerIdMap !! jellyfin.providerKey e = None)
                (models.ProviderIDs record) ->
         main.findEpisode providerIdMap nameSeasonMap record
         = nameSeasonMap !! (models.SeasonName record +:+ ":" +:+ models.Name record))).
Proof.
  split; intros pm nm; split.
  - intros pre entry post info Hids Hpre Hhit. unfold main.findMovie.
    by rewrite (lookupProviderIDs_first pm _ pre entry post info).
  - intros Hnone. unfold main.findMovie. by rewrite lookupProviderIDs_none.
  - intros pre entry post info Hids Hpre Hhit. unfold main.findEpisode.
    by rewrite (lookupProviderIDs_first pm _ pre entry post info).
  - intros Hnone. unfold main.findEpisode. by rewrite lookupProviderIDs_none.
Qed.

Lemma resolve_prefers_first_provider_key_witness :
  main.findMovie {[ "Tmdb:1"%string := samples_restore.byProvider ]}
                 {[ "Movie"%string := samples_restore.byName ]}
                 (samples_restore.movie "Movie" [("Imdb", "tt1"); ("Tmdb", "1")]%string)
  = Some samples_restore.byProvider.
Proof.
  apply (proj1 (proj1 (resolve_prefers_first_provider_key
           (samples_restore.movie "Movie" [("Imdb", "tt1"); ("Tmdb", "1")]%string)) _ _)
         [("Imdb", "tt1")]%string ("Tmdb", "1")%string []).
  - reflexivity.
  - repeat constructor.
  - by vm_compute.
Defined.

Section RestoreCoordinator.
Import main.
Variable srv : jellyfin.Server.

Lemma movieStep_oneMore pm nm st movie : oneMore st (movieStep srv pm nm st movie).
Proof.
  unfold movieStep, oneMore.
  destruct (findMovie pm nm movie) as [info|]; simpl; [|by right].
  destruct (jellyfin.Played info); simpl; [by left|].
  destruct (jellyfin.markReply srv (sent st) (jellyfin.ID info)); simpl; auto.
Qed.

Lemma episodeStep_oneMore pm nm st episode : oneMore st (episodeStep srv pm nm st episode).
Proof.
  unfold episodeStep, oneMore.
  destruct (findEpisode pm nm episode) as [info|]; simpl; [|by right].
  destruct (Played info); simpl; [by left|].
  destruct (jellyfin.markReply srv (sent st) (ID info)); simpl; auto.
Qed.

Lemma steps_count {B} (step : Run -> B -> Run) (items : list B) st :
  (forall st item, oneMore st (step st item)) ->
  let st' := foldl step st items in
  successful st' + failed st' = successful st + failed st + len items
  /\ successful st <= successful st' /\ failed st <= failed st'.
Proof.
  intros Hstep. revert st. unfold len.
  induction items as [|item items IH]; intros st; simpl; [lia|].
  specialize (IH (step st item)). simpl in IH.
  destruct (Hstep st item) as [[? ?]|[? ?]]; lia.
Qed.

Lemma failAll_failed seasons st :
  failed (failAll seasons st) = failed st + episodesIn seasons.
Proof.
  unfold failAll; simpl. generalize (failed st).
  induction seasons as [|season seasons IH]; intros n; simpl; [lia|].
  rewrite IH. lia.
Qed.

Lemma seasons_count pm nm seasons st :
  let st' := foldl (fun st1 (season : string * list models.WatchedItem) =>
                      foldl (episodeStep srv pm nm) st1 (snd season)) st seasons in
  successful st' + failed st' = successful st + failed st + episodesIn seasons
  /\ successful st <= successful st' /\ failed st <= failed st'.
Proof.
  revert st. induction seasons as [|season seasons IH]; intros st; simpl; [lia|].
  specialize (IH (foldl (episodeStep srv pm nm) st (snd season))). simpl in IH.
  pose proof (steps_count (episodeStep srv pm nm) (snd season) st
                (episodeStep_oneMore pm nm)) as H. simpl in H. lia.
Qed.

Lemma len_nonneg {B} (l : list B) : 0 <= len l.
Proof. unfold len. lia. Qed.

Lemma episodesIn_nonneg seasons : 0 <= episodesIn seasons.
Proof.
  induction seasons as [|s seasons IH]; simpl; [lia|].
  pose proof (len_nonneg (snd s)). lia.
Qed.

Lemma showStep_count st (show : Show) :
  let st' := showStep srv st show in
  successful st' + failed st' = successful st + failed st + episodesIn (snd show)
  /\ successful st <= successful st' /\ failed st <= failed st'.
Proof.
  destruct show as [seriesName seasons]. unfold showStep. cbn [snd].
  pose proof (episodesIn_nonneg seasons) as Hnn.
  destruct (jellyfin.FindSeriesID srv seriesName (sent st)) as [[seriesID|] sent1].
  - destruct (jellyfin.GetEpisodesForSeries srv seriesID sent1) as [[episodes|] sent2].
    + destruct (foldl (addEpisode) (∅, ∅) episodes) as [pm nm].
      apply (seasons_count pm nm seasons (withSent st sent2)).
    + rewrite failAll_failed. simpl. lia.
  - rewrite failAll_failed. simpl. lia.
Qed.

Lemma shows_count tvShowMap st :
  let st' := foldl (showStep srv) st tvShowMap in
  successful st' + failed st' = successful st + failed st + episodesOf tvShowMap
  /\ successful st <= successful st' /\ failed st <= failed st'.
Proof.
  revert st. induction tvShowMap as [|show shows IH]; intros st; simpl; [lia|].
  specialize (IH (showStep srv st show)). simpl in IH.
  pose proof (showStep_count st show) as H. simpl in H. lia.
Qed.

(** A failed series lookup is a failed request or an empty search result. *)
Lemma FindSeriesID_fails seriesName sent0 :
  fst (jellyfin.FindSeriesID srv seriesName sent0) = None <->
  jellyfin.seriesReply srv sent0 seriesName = None
  ∨ jellyfin.seriesReply srv sent0 seriesName = Some [].
Proof.
  unfold jellyfin.FindSeriesID, jellyfin.firstExactMatch.
  destruct (jellyfin.seriesReply srv sent0 seriesName) as [items|]; simpl.
  - destruct items as [|first rest]; simpl; [by split; auto|].
    split; [|by intros [|]].
    destruct (bool_decide (jellyfin.SName first = seriesName)); simpl; [done|].
    by destruct (find _ rest).
  - by split; auto.
Qed.

Lemma FindSeriesID_sent seriesName sent0 :
  snd (jellyfin.FindSeriesID srv seriesName sent0)
  = sent0 ++ [jellyfin.FindSeriesCall seriesName].
Proof.
  unfold jellyfin.FindSeriesID. by repeat (case_match; simpl).
Qed.

(** C6: when the lookup of the series identifier fails, the series group
    adds the number of its snapshot episodes to [failed], leaves
    [successful] alone, has sent nothing but the series search itself,
    and the loop goes on with the next group. *)
Theorem failed_series_lookup_fails_its_group sent0 pre seriesName seasons post :
  let st := foldl (showStep srv) {| successful := 0; failed := 0; sent := sent0 |} pre in
  let st' := {| successful := successful st;
                failed := failed st + episodesIn seasons;
                sent := sent st ++ [jellyfin.FindSeriesCall seriesName] |} in
  fst (jellyfin.FindSeriesID srv seriesName (sent st)) = None ->
  showStep srv st (seriesName, seasons) = st'
  /\ restoreTVShows srv (pre ++ (seriesName, seasons) :: post) sent0
     = foldl (showStep srv) st' post.
Proof.
  intros st st' Hfail.
  assert (Hstep : showStep srv st (seriesName, seasons) = st').
  { unfold showStep.
    pose proof (FindSeriesID_sent seriesName (sent st)) as Hs.
    destruct (jellyfin.FindSeriesID srv seriesName (sent st)) as [r sent1].
    simpl in Hfail, Hs. subst r sent1. subst st'.
    pose proof (failAll_failed seasons
      (withSent st (sent st ++ [jellyfin.FindSeriesCall seriesName]))) as Hf.
    unfold failAll in *. simpl in *. by rewrite Hf. }
  split; [done|].
  unfold restoreTVShows. rewrite foldl_app. cbn [foldl]. fold st. by rewrite Hstep.
Qed.

(** The mark requests of a batch are those for the records found
    unplayed, in order; nothing else is sent. *)
Lemma movies_sent pm nm movies st :
  sent (foldl (movieStep srv pm nm) st movies)
  = sent st
    ++ map jellyfin.MarkAsWatchedCall
         (omap (fun movie =>
                  match findMovie pm nm movie with
                  | Some info =>
                      if jellyfin.Played info then None else Some (jellyfin.ID info)
                  | None => None
                  end) movies).
Proof.
  revert st. induction movies as [|movie movies IH]; intros st; simpl.
  - by rewrite app_nil_r.
  - rewrite IH. unfold movieStep.
    destruct (findMovie pm nm movie) as [info|]; simpl; [|done].
    destruct (jellyfin.Played info); simpl; [done|].
    destruct (jellyfin.markReply srv (sent st) (jellyfin.ID info)); simpl;
      by rewrite <- app_assoc.
Qed.

Lemma episodes_sent pm nm episodes st :
  sent (foldl (episodeStep srv pm nm) st episodes)
  = sent st
    ++ map jellyfin.MarkAsWatchedCall
         (omap (fun episode =>
                  match findEpisode pm nm episode with
                  | Some info => if Played info then None else Some (ID info)
                  | None => None
                  end) episodes).
Proof.
  revert st. induction episodes as [|episode episodes IH]; intros st; simpl.
  - by rewrite app_nil_r.
  - rewrite IH. unfold episodeStep.
    destruct (findEpisode pm nm episode) as [info|]; simpl; [|done].
    destruct (Played info); simpl; [done|].
    destruct (jellyfin.markReply srv (sent st) (ID info)); simpl;
      by rewrite <- app_assoc.
Qed.

(** C7: a snapshot movie or episode whose lookup yields an item already
    marked played adds one to [successful] and nothing else: the requests
    sent to the server are those sent before it, so no mark request is
    made for it. *)
Theorem played_item_counts_without_mark :
  (forall providerIdMap nameMap st0 pre movie info,
     let st := foldl (movieStep srv providerIdMap nameMap) st0 pre in
     findMovie providerIdMap nameMap movie = Some info ->
     jellyfin.Played info = true ->
     foldl (movieStep srv providerIdMap nameMap) st0 (pre ++ [movie])
     = {| successful := successful st + 1; failed := failed st; sent := sent st |})
  /\ (forall providerIdMap nameSeasonMap st0 pre episode info,
     let st := foldl (episodeStep srv providerIdMap nameSeasonMap) st0 pre in
     findEpisode providerIdMap nameSeasonMap episode = Some info ->
     Played info = true ->
     foldl (episodeStep srv providerIdMap nameSeasonMap) st0 (pre ++ [episode])
     = {| successful := successful st + 1; failed := failed st; sent := sent st |}).
Proof.
  split; intros pm nm st0 pre item info st Hfind Hplayed;
    rewrite foldl_app; cbn [foldl]; fold st.
  - unfold movieStep. by rewrite Hfind, Hplayed.
  - unfold episodeStep. by rewrite Hfind, Hplayed.
Qed.

(** C9: both restore functions count every snapshot record exactly once:
    each iteration adds one to exactly one of the two counters, so the
    counters sum to the size of the batch; when the movie query fails,
    [successful] is 0 and [failed] is the number of movies. *)
Theorem restore_counts_every_record :
  (forall movies sent0,
     let r := restoreMovies srv movies sent0 in
     successful r + failed r = len movies
     /\ 0 <= successful r /\ 0 <= failed r
     /\ (jellyfin.moviesReply srv sent0 = None ->
         successful r = 0 /\ failed r = len movies))
  /\ (forall tvShowMap sent0,
     let r := restoreTVShows srv tvShowMap sent0 in
     successful r + failed r = episodesOf tvShowMap
     /\ 0 <= successful r /\ 0 <= failed r)
  /\ (forall providerIdMap nameMap st movie,
     oneMore st (movieStep srv providerIdMap nameMap st movie))
  /\ (forall providerIdMap nameSeasonMap st episode,
     oneMore st (episodeStep srv providerIdMap nameSeasonMap st episode)).
Proof.
  split; [|split; [|split]].
  - intros movies sent0. unfold restoreMovies, jellyfin.GetAllMovies. simpl.
    pose proof (len_nonneg movies).
    destruct (jellyfin.moviesReply srv sent0) as [items|]; simpl.
    + destruct (foldl (jellyfin.addMovie) (∅, ∅) items) as [pm nm].
      pose proof (steps_count (movieStep srv pm nm) movies
        {| successful := 0; failed := 0; sent := sent0 ++ [jellyfin.GetAllMoviesCall] |}
        (movieStep_oneMore pm nm)) as Hc. simpl in Hc.
      split; [lia|]. split; [lia|]. split; [lia|]. intros [=].
    + unfold len. simpl. split; [lia|]. split; [lia|]. split; [lia|]. done.
  - intros tvShowMap sent0. unfold restoreTVShows.
    pose proof (shows_count tvShowMap
      {| successful := 0; failed := 0; sent := sent0 |}) as Hc. simpl in Hc. lia.
  - apply movieStep_oneMore.
  - apply episodeStep_oneMore.
Qed.

End RestoreCoordinator.

Lemma failed_series_lookup_fails_its_group_witness :
  main.restoreTVShows samples_restore.server ([] ++ samples_restore.show :: []) []
  = {| main.successful := 0; main.failed := 3;
       main.sent := [jellyfin.FindSeriesCall "Show"] |}.
Proof.
  apply (failed_series_lookup_fails_its_group samples_restore.server [] []
           "Show"%string (snd samples_restore.show) []).
  reflexivity.
Defined.

Lemma played_item_counts_without_mark_witness :
  foldl (main.movieStep samples_restore.server
           {[ "Imdb:tt1"%string := samples_restore.byProvider ]} ∅)
        {| main.successful := 0; main.failed := 0; main.sent := [] |}
        ([] ++ [samples_restore.movie "Movie" [("Imdb", "tt1")]%string])
  = {| main.successful := 1; main.failed := 0; main.sent := [] |}.
Proof.
  apply (proj1 (played_item_counts_without_mark samples_restore.server)
           {[ "Imdb:tt1"%string := samples_restore.byProvider ]} ∅
           {| main.successful := 0; main.failed := 0; main.sent := [] |} []
           (samples_restore.movie "Movie" [("Imdb", "tt1")]%string)
           samples_restore.byProvider).
  - by vm_compute.
  - reflexivity.
Defined.

Lemma restore_counts_every_record_witness :
  let r := main.restoreMovies samples_restore.offline
             [samples_restore.movie "A" []; samples_restore.movie "B" []] [] in
  main.successful r = 0 /\ main.failed r = 2.
Proof.
  intros r.
  apply (proj1 (restore_counts_every_record samples_restore.offline)
           [samples_restore.movie "A" []; samples_restore.movie "B" []] []).
  reflexivity.
Defined.

(** * Further properties of the merge detector *)

Section MergeDetectorMore.
Import tvdb scan_notions.
Variable jf : gmap string Z.
Variable cs : bool.

Lemma scanFrom_reported nowAt i st eps m :
  m ∈ missing (scanFrom jf cs nowAt i st eps) ->
  m ∈ missing st
  ∨ exists k ep, eps !! k = Some ep /\ m = missingOf ep
      /\ jf !! episodeKey ep = None
      /\ candidate cs (nowAt (i + k)%nat) ep = true.
Proof.
  revert i st. induction eps as [|ep eps IH]; intros i st; simpl; [by left|].
  intros [Hin|(k & ep' & Hk & -> & Habs & Hc)]%IH.
  - destruct (jf !! episodeKey ep) as [r|] eqn:Hep.
    + rewrite (scanStep_present _ _ _ _ _ r) in Hin by done. by left.
    + destruct (candidate cs (nowAt i) ep) eqn:Hc.
      * destruct (folds st ep) eqn:Hf.
        -- rewrite scanStep_fold in Hin by done. by left.
        -- destruct (scanStep_emit jf cs (nowAt i) st ep Hep Hc Hf) as [Hm _].
           rewrite Hm in Hin. apply elem_of_app in Hin as [Hin|Hin]; [by left|].
           apply list_elem_of_singleton in Hin as ->. right.
           exists 0%nat, ep. by rewrite Nat.add_0_r.
      * rewrite scanStep_skip in Hin by done. by left.
  - right. exists (S k), ep'. rewrite Nat.add_succ_r. by rewrite Nat.add_succ_l in Hc.
Qed.

(** X1: every reported episode is an episode of the input that is not in
    [jellyfinEpisodes], is of a season other than 0 unless specials are
    checked, and has an air date that parses and is before the clock
    reading of its iteration. *)
Theorem reported_episodes_are_due nowAt eps m :
  m ∈ FindMissingEpisodes nowAt eps jf cs ->
  exists i ep,
    eps !! i = Some ep /\ m = missingOf ep
    /\ jf !! episodeKey ep = None
    /\ (SeasonNumber ep ≠ 0 ∨ cs = true)
    /\ exists airDate,
         time.Parse_2006_01_02 (Aired ep) = Some airDate /\ airDate < nowAt i.
Proof.
  intros Hin. apply scanFrom_reported in Hin as [Hin|(i & ep & Hi & -> & Habs & Hc)].
  - by apply elem_of_nil in Hin.
  - exists i, ep. split; [done|]. split; [done|]. split; [done|].
    unfold candidate in Hc. apply andb_prop in Hc as [Hs Ha]. split.
    + destruct (Z.eqb_spec (SeasonNumber ep) 0); [|by left].
      right. by destruct cs.
    + unfold airedBefore, time.Before in Ha.
      destruct (time.Parse_2006_01_02 (Aired ep)) as [t|]; [|done].
      exists t. split; [done|]. by apply Z.ltb_lt.
Qed.

Lemma emitted_chain nowAt i st st' eps :
  chainOf st = chainOf st' ->
  emitted jf cs nowAt i st eps = emitted jf cs nowAt i st' eps.
Proof.
  intros H. unfold emitted. f_equal. f_equal.
  destruct st, st'. unfold chainOf in H. simpl in H.
  unfold withMissing; simpl. by injection H as -> -> -> ->.
Qed.

(** X2: an episode found locally starts the scan afresh: the result for
    [pre ++ p :: post] is the result for [pre] followed by the result for
    [p :: post] on its own (under the clock readings it has in the
    longer run). *)
Theorem local_episode_restarts_scan nowAt pre p post r :
  jf !! episodeKey p = Some r ->
  FindMissingEpisodes nowAt (pre ++ p :: post) jf cs
  = FindMissingEpisodes nowAt pre jf cs
    ++ FindMissingEpisodes (clockFrom (length pre) nowAt) (p :: post) jf cs.
Proof.
  intros Hp. unfold FindMissingEpisodes, FindMissingEpisodes_at.
  rewrite scanFrom_app. cbn [scanFrom Nat.add].
  rewrite !(scanStep_present _ _ _ _ _ r) by done.
  rewrite scanFrom_missing. cbn [missing]. f_equal.
  rewrite (scanFrom_missing _ _ _ 1). cbn [missing scanInit app].
  unfold emitted, withMissing. cbn. f_equal.
  apply scanFrom_ext. intros k _. unfold clockFrom. f_equal. lia.
Qed.

Lemma emitted_inactive nowAt i st eps :
  chainActive st = false ->
  Forall (fun ep => jf !! episodeKey ep = None) eps ->
  emitted jf cs nowAt i st eps = map missingOf (candidatesFrom cs nowAt i eps).
Proof.
  intros Hst Habs. unfold emitted.
  assert (Hw : chainActive (withMissing st []) = false) by done.
  assert (Hm : missing (withMissing st []) = []) by done.
  revert Hw Hm. generalize (withMissing st []). clear st Hst.
  intros st Hst Hm. rewrite <- (app_nil_l (map _ _)), <- Hm. clear Hm.
  revert i st Hst. induction Habs as [|ep eps Hep _ IH]; intros i st Hst; simpl.
  - by rewrite app_nil_r.
  - destruct (candidate cs (nowAt i) ep) eqn:Hc.
    + assert (Hf : folds st ep = false) by (unfold folds; by rewrite Hst).
      destruct (scanStep_emit jf cs (nowAt i) st ep Hep Hc Hf) as [Hmiss Hina].
      rewrite IH, Hmiss by done. simpl. by rewrite <- app_assoc.
    + rewrite scanStep_skip by done. by apply IH.
Qed.

(** X3: once an absent candidate is reported, every absent episode that
    follows it before the next local episode is reported as soon as it
    is a candidate, whatever its season and runtime. *)
Theorem after_a_miss_every_candidate_is_reported nowAt pre ep absents :
  jf !! episodeKey ep = None ->
  candidate cs (nowAt (length pre)) ep = true ->
  folds (scanFrom jf cs nowAt 0 scanInit pre) ep = false ->
  Forall (fun ep' => jf !! episodeKey ep' = None) absents ->
  FindMissingEpisodes nowAt (pre ++ ep :: absents) jf cs
  = FindMissingEpisodes nowAt pre jf cs
    ++ missingOf ep
       :: map missingOf (candidatesFrom cs nowAt (S (length pre)) absents).
Proof.
  intros Hep Hc Hf Habs. unfold FindMissingEpisodes, FindMissingEpisodes_at.
  rewrite scanFrom_app. cbn [scanFrom Nat.add].
  destruct (scanStep_emit jf cs (nowAt (length pre)) _ ep Hep Hc Hf) as [Hm Hina].
  rewrite scanFrom_missing, Hm, emitted_inactive by done.
  by rewrite <- app_assoc.
Qed.



End MergeDetectorMore.

(** X5: within the range of the exact test, the merge test is a threshold
    on the observed runtime: it holds exactly from [ceil (17/20 * accum)]
    upwards.  So a longer file never turns a fold into a miss, and a
    shorter expected runtime never does either. *)
Theorem merge_test_is_a_threshold jfRuntime accum :
  0 <= accum < 2 ^ 48 -> - 2 ^ 53 < jfRuntime < 2 ^ 53 ->
  tvdb.longEnough jfRuntime accum = true <-> (17 * accum + 19) `div` 20 <= jfRuntime.
Proof.
  intros Hacc Hjf. rewrite longEnough_exact, Z.leb_le by done.
  pose proof (Z.div_mod (17 * accum + 19) 20) as Hdm.
  pose proof (Z.mod_pos_bound (17 * accum + 19) 20). lia.
Qed.

(** * Including the specials *)

Section Specials.
Import tvdb.
Variable jf : gmap string Z.

Lemma folds_chain st st' ep : chainOf st = chainOf st' -> folds st ep = folds st' ep.
Proof. unfold chainOf, folds. by intros [= -> -> -> ->]. Qed.

Lemma scanStep_specials now sF sT ep :
  missing sF `sublist_of` missing sT ->
  chainActive sT = false ∨ chainOf sF = chainOf sT
    ∨ (chainSeason sF = 0 /\ chainSeason sT = 0) ->
  missing (scanStep jf false now sF ep) `sublist_of` missing (scanStep jf true now sT ep)
  /\ (chainActive (scanStep jf true now sT ep) = false
      ∨ chainOf (scanStep jf false now sF ep) = chainOf (scanStep jf true now sT ep)
      ∨ (chainSeason (scanStep jf false now sF ep) = 0
         /\ chainSeason (scanStep jf true now sT ep) = 0)).
Proof.
  intros Hsub HR.
  destruct (jf !! episodeKey ep) as [r|] eqn:Hep.
  { rewrite !(scanStep_present _ _ _ _ _ r) by done. simpl. auto. }
  destruct (airedBefore now ep) eqn:Hair.
  2:{ rewrite !scanStep_skip; auto; unfold candidate; by rewrite Hair, andb_false_r. }
  assert (HcT : candidate true now ep = true)
    by (unfold candidate; by rewrite Hair, orb_true_r).
  destruct (Z.eqb_spec (SeasonNumber ep) 0) as [Hs0|Hs].
  - rewrite (scanStep_skip jf false now sF ep Hep)
      by (unfold candidate; apply Z.eqb_eq in Hs0; by rewrite Hs0).
    destruct (folds sT ep) eqn:HfT.
    + rewrite (scanStep_fold jf true now sT ep Hep HcT HfT). simpl.
      split; [done|]. right. right.
      unfold folds in HfT. apply andb_prop in HfT as [HfT _].
      apply andb_prop in HfT as [Hact Hseas]. apply Z.eqb_eq in Hseas.
      destruct HR as [HR|[HR|[? ?]]]; [congruence| |lia].
      unfold chainOf in HR. injection HR as _ HR _ _. lia.
    + destruct (scanStep_emit jf true now sT ep Hep HcT HfT) as [-> ->].
      split; [by apply sublist_inserts_r|by left].
  - assert (HcF : candidate false now ep = true).
    { unfold candidate. apply Z.eqb_neq in Hs. by rewrite Hs, Hair. }
    assert (Hemit : folds sT ep = false ->
      missing (scanStep jf false now sF ep)
        `sublist_of` missing (scanStep jf true now sT ep)
      /\ chainActive (scanStep jf true now sT ep) = false).
    { intros HfT. destruct (scanStep_emit jf true now sT ep Hep HcT HfT) as [-> ->].
      split; [|done]. destruct (folds sF ep) eqn:HfF.
      - rewrite (scanStep_fold jf false now sF ep Hep HcF HfF). simpl.
        by apply sublist_inserts_r.
      - destruct (scanStep_emit jf false now sF ep Hep HcF HfF) as [-> _].
        by apply sublist_app. }
    destruct HR as [HR|[HR|[HF HT]]].
    + destruct Hemit as [? ?]; [unfold folds; by rewrite HR|]. auto.
    + destruct (folds sT ep) eqn:HfT.
      * assert (HfF : folds sF ep = true) by (by rewrite (folds_chain sF sT)).
        rewrite (scanStep_fold jf true now sT ep Hep HcT HfT).
        rewrite (scanStep_fold jf false now sF ep Hep HcF HfF). simpl.
        split; [done|]. right. left.
        unfold chainOf in *. simpl. by injection HR as _ -> -> ->.
      * destruct Hemit as [? ?]; auto.
    + destruct Hemit as [? ?]; [|auto].
      unfold folds. destruct (Z.eqb_spec (chainSeason sT) (SeasonNumber ep)); [lia|].
      by rewrite andb_false_r.
Qed.

Lemma scanFrom_specials nowAt i sF sT eps :
  missing sF `sublist_of` missing sT ->
  chainActive sT = false ∨ chainOf sF = chainOf sT
    ∨ (chainSeason sF = 0 /\ chainSeason sT = 0) ->
  missing (scanFrom jf false nowAt i sF eps)
    `sublist_of` missing (scanFrom jf true nowAt i sT eps).
Proof.
  revert i sF sT. induction eps as [|ep eps IH]; intros i sF sT Hsub HR; simpl; [done|].
  destruct (scanStep_specials (nowAt i) sF sT ep Hsub HR) as [Hsub' HR'].
  by apply IH.
Qed.

(** X6: checking the specials as well never hides an episode: what is
    reported without them is reported with them, in the same order. *)
Theorem including_specials_only_adds nowAt eps :
  FindMissingEpisodes nowAt eps jf false
    `sublist_of` FindMissingEpisodes nowAt eps jf true.
Proof.
  unfold FindMissingEpisodes, FindMissingEpisodes_at.
  apply scanFrom_specials; [done|]. right. by left.
Qed.

End Specials.

(** * The keys of the episode map *)

Section EpisodeKeys.
Import main_findmissing.

Lemma string_of_uint_noColon d : noColon (NilEmpty.string_of_uint d).
Proof.
  unfold noColon.
  induction d; simpl; constructor; (done || discriminate).
Qed.

Lemma Sprintf_d_noColon n : noColon (golang.Sprintf_d n).
Proof.
  unfold golang.Sprintf_d, NilZero.string_of_int, NilZero.string_of_uint.
  destruct (Z.to_int n) as [d|d]; destruct d; unfold noColon; simpl;
    repeat (constructor; [discriminate|]);
    try apply (string_of_uint_noColon d); constructor.
Qed.

Lemma Sprintf_d_inj a b : golang.Sprintf_d a = golang.Sprintf_d b -> a = b.
Proof.
  unfold golang.Sprintf_d. intros H.
  assert (Hnn : forall z, Z.to_int z <> Decimal.Pos Decimal.Nil
                          /\ Z.to_int z <> Decimal.Neg Decimal.Nil).
  { intros [|p|p]; simpl; split; try discriminate;
      intros [= E]; by apply Unsigned.to_uint_nonnil in E. }
  apply (f_equal NilZero.int_of_string) in H.
  rewrite !NilZero.isi in H by apply Hnn.
  injection H as H. apply (f_equal Z.of_int) in H. by rewrite !DecimalZ.of_to in H.
Qed.

Lemma append_String c s t : String c s +:+ t = String c (s +:+ t).
Proof. reflexivity. Qed.

Lemma append_colon_inj s1 s2 t1 t2 :
  noColon s1 -> noColon s2 ->
  s1 +:+ ":" +:+ t1 = s2 +:+ ":" +:+ t2 -> s1 = s2 /\ t1 = t2.
Proof.
  change (":" +:+ t1) with (String ":" t1). change (":" +:+ t2) with (String ":" t2).
  unfold noColon. revert s2.
  induction s1 as [|c s1 IH]; intros [|c2 s2] H1 H2;
    rewrite ?append_String; change (EmptyString +:+ ?x) with x;
    cbn [list_ascii_of_string] in *.
  - by intros [= ->].
  - intros [= <- _]. by apply Forall_cons in H2 as [? _].
  - intros [= -> _]. by apply Forall_cons in H1 as [? _].
  - intros [= -> H]. apply Forall_cons in H1 as [_ H1].
    apply Forall_cons in H2 as [_ H2].
    destruct (IH s2 H1 H2 H) as [-> ->]. done.
Qed.

(** X7: the key [season:number] determines the season and the number:
    two episodes, of TVDB or of Jellyfin, have the same key exactly when
    they agree on both. *)
Theorem episode_key_determines_numbers (te : tvdb.Episode) (je : jellyfin.EpisodeInfo) :
  (tvdb.episodeKey te = jellyfinKey je <->
     tvdb.SeasonNumber te = jellyfin.SeasonNumber je
     /\ tvdb.Number te = jellyfin.EpisodeNumber je)
  /\ (forall te' : tvdb.Episode,
        tvdb.episodeKey te = tvdb.episodeKey te' <->
        tvdb.SeasonNumber te = tvdb.SeasonNumber te'
        /\ tvdb.Number te = tvdb.Number te').
Proof.
  split; [|intros te']; (split; [|by intros [H1 H2];
    unfold tvdb.episodeKey, jellyfinKey; rewrite H1, H2]).
  - intros H. apply append_colon_inj in H as [H1 H2]; try apply Sprintf_d_noColon.
    by split; apply Sprintf_d_inj.
  - intros H. apply append_colon_inj in H as [H1 H2]; try apply Sprintf_d_noColon.
    by split; apply Sprintf_d_inj.
Qed.

Lemma jellyfinKey_eq je season number :
  jellyfinKey je = golang.Sprintf_d season +:+ ":" +:+ golang.Sprintf_d number <->
  jellyfin.SeasonNumber je = season /\ jellyfin.EpisodeNumber je = number.
Proof.
  split; [|by intros [<- <-]].
  intros H. apply append_colon_inj in H as [H1 H2]; try apply Sprintf_d_noColon.
  by split; apply Sprintf_d_inj.
Qed.

Lemma existingEpisodes_snoc l je :
  existingEpisodes (l ++ [je])
  = <[jellyfinKey je := jellyfin.RuntimeMinutes je]> (existingEpisodes l).
Proof. unfold existingEpisodes. by rewrite foldl_app. Qed.

Lemma existingEpisodes_lookup jellyfinEpisodes season number :
  existingEpisodes jellyfinEpisodes
    !! (golang.Sprintf_d season +:+ ":" +:+ golang.Sprintf_d number)
  = jellyfin.RuntimeMinutes <$> last (numbered season number jellyfinEpisodes).
Proof.
  induction jellyfinEpisodes as [|je l IH] using rev_ind; [done|].
  rewrite existingEpisodes_snoc. unfold numbered in *. rewrite filter_app.
  rewrite filter_cons, filter_nil.
  destruct (decide (jellyfinKey je
                    = golang.Sprintf_d season +:+ ":" +:+ golang.Sprintf_d number))
    as [Hk|Hk].
  - rewrite <- Hk, lookup_insert_eq. apply jellyfinKey_eq in Hk.
    rewrite decide_True by done. by rewrite last_snoc.
  - rewrite lookup_insert_ne by done. rewrite IH.
    rewrite decide_False by (by rewrite <- jellyfinKey_eq). by rewrite app_nil_r.
Qed.

(** X8: the map of existing episodes holds, under [season:number], the
    runtime of the last Jellyfin episode with that season and number, and
    nothing if there is none. *)
Theorem existing_episode_is_last_with_numbers jellyfinEpisodes season number :
  existingEpisodes jellyfinEpisodes
    !! (golang.Sprintf_d season +:+ ":" +:+ golang.Sprintf_d number)
  = jellyfin.RuntimeMinutes <$> last (numbered season number jellyfinEpisodes).
Proof. apply existingEpisodes_lookup. Qed.

(** X9: an episode that Jellyfin has is never reported: every element of
    the result for a series differs in season or in number from every
    Jellyfin episode of the series. *)
Theorem local_episodes_are_never_reported nowAt tvdbEpisodes jellyfinEpisodes
    includeSpecials m je :
  m ∈ missingOfSeries nowAt tvdbEpisodes jellyfinEpisodes includeSpecials ->
  je ∈ jellyfinEpisodes ->
  ~ (jellyfin.SeasonNumber je = models.SeasonNumber m
     /\ jellyfin.EpisodeNumber je = models.EpisodeNumber m).
Proof.
  intros Hm Hje [Hs Hn]. unfold missingOfSeries in Hm.
  apply scanFrom_reported in Hm as [Hm|(i & ep & _ & -> & Habs & _)];
    [by apply elem_of_nil in Hm|].
  simpl in Hs, Hn. unfold tvdb.episodeKey in Habs.
  rewrite existingEpisodes_lookup in Habs.
  apply fmap_None, last_None in Habs.
  assert (je ∈ numbered (tvdb.SeasonNumber ep) (tvdb.Number ep) jellyfinEpisodes) as Hin
    by (apply list_elem_of_filter; done).
  rewrite Habs in Hin. by apply elem_of_nil in Hin.
Qed.

End EpisodeKeys.

(** * The pages of the TVDB episode list *)

Section Pagination.
Import tvdb_client.
Variable srv : Server.






(** X12: unless the login is answered with status 200 and a non-empty
    token, a new client that logs in and then asks for the episodes of a
    series gets an error and sends no request after the login. *)
Theorem pages_need_a_token fuel key seriesID sent0 :
  (forall tok, loginReply srv sent0 key = Some (200, Some tok) -> tok = EmptyString) ->
  let c := fst (fst (Login srv (NewClient key) sent0)) in
  let sent1 := snd (Login srv (NewClient key) sent0) in
  sent1 = sent0 ++ [LoginCall key]
  /\ GetSeriesEpisodes srv (S fuel) c seriesID sent1 = (Some None, sent1).
Proof.
  intros Hlogin c sent1.
  assert (Htok : token c = EmptyString).
  { subst c. unfold Login, NewClient. cbn [apiKey].
    destruct (loginReply srv sent0 key) as [[status body]|] eqn:Hr; [|done].
    destruct (Z.eqb_spec status 200) as [->|]; simpl; [|done].
    destruct body as [tok|]; simpl; [|done]. by apply Hlogin. }
  split.
  - subst sent1. unfold Login, NewClient. cbn [apiKey].
    destruct (loginReply srv sent0 key) as [[status body]|]; [|done].
    destruct (status =? 200); simpl; [|done]. by destruct body.
  - unfold GetSeriesEpisodes. cbn [pagesFrom]. unfold makeRequest.
    by rewrite bool_decide_true.
Qed.

End Pagination.

(** * The lookup maps and the requests of the restore *)

Section Index.
Import jellyfin.

Lemma insertProviderIds_lookup {A} (info : A) ids (m : gmap string A) k :
  insertProviderIds info ids m !! k
  = if decide (k ∈ map providerKey ids) then Some info else m !! k.
Proof.
  unfold insertProviderIds. revert m.
  induction ids as [|entry ids IH]; intros m; simpl; [done|].
  rewrite IH. destruct (decide (k ∈ map providerKey ids)) as [Hin|Hnin].
  - rewrite decide_True; [done|]. by right.
  - destruct (decide (providerKey entry = k)) as [<-|Hne].
    + rewrite lookup_insert_eq. rewrite decide_True; [done|]. by left.
    + rewrite lookup_insert_ne by done. rewrite decide_False; [done|].
      intros [->|?]%elem_of_cons; done.
Qed.

Lemma movie_maps_lookup (items : list MovieItem) (k : string) :
  let maps := foldl addMovie (∅, ∅) items in
  let infoOf item := {| ID := MID item; Played := MPlayed item |} in
  snd maps !! k = infoOf <$> last (filter (fun item => MName item = k) items)
  /\ fst maps !! k
     = infoOf <$> last (filter (fun item => k ∈ map providerKey (MProviderIds item))
                               items).
Proof.
  cbn zeta. induction items as [|item items [IHn IHp]] using rev_ind; [done|].
  rewrite foldl_app. cbn [foldl]. unfold addMovie at 1 3. cbn [fst snd].
  rewrite !filter_app, !filter_cons, !filter_nil. split.
  - destruct (decide (MName item = k)) as [<-|Hne].
    + by rewrite lookup_insert_eq, last_snoc.
    + by rewrite lookup_insert_ne, app_nil_r.
  - rewrite insertProviderIds_lookup.
    destruct (decide (k ∈ map providerKey (MProviderIds item))).
    + by rewrite last_snoc.
    + by rewrite app_nil_r.
Qed.

(** X13: the maps built by [GetAllMovies] hold, under a name, the movie
    that comes last in the reply among those with that name, and under a
    key [provider:id], the one that comes last among those carrying that
    provider ID -- whatever the order in which the provider IDs of a movie
    are visited -- and nothing when there is none. *)
Theorem movie_maps_hold_the_last_match (items : list MovieItem) (k : string) :
  let maps := foldl addMovie (∅, ∅) items in
  let infoOf item := {| ID := MID item; Played := MPlayed item |} in
  snd maps !! k = infoOf <$> last (filter (fun item => MName item = k) items)
  /\ fst maps !! k
     = infoOf <$> last (filter (fun item => k ∈ map providerKey (MProviderIds item))
                               items).
Proof. apply movie_maps_lookup. Qed.




End Index.

Section SeriesLookup.
Import jellyfin.
Variable srv : Server.

(** X16: [FindSeriesID] returns the ID of the first series of the search
    result whose name is exactly the one asked for, even when it is not
    the first result; only when no name matches exactly does it return
    the ID of the first result. *)
Theorem series_lookup_prefers_exact_name seriesName sent0 items :
  seriesReply srv sent0 seriesName = Some items ->
  (forall pre item post,
     items = pre ++ item :: post ->
     Forall (fun i => SName i <> seriesName) pre -> SName item = seriesName ->
     fst (FindSeriesID srv seriesName sent0) = Some (SID item))
  /\ (Forall (fun i => SName i <> seriesName) items ->
      fst (FindSeriesID srv seriesName sent0) = SID <$> head items).
Proof.
  intros Hr. unfold FindSeriesID, firstExactMatch. rewrite Hr. split.
  - intros pre item post -> Hpre Hitem.
    assert (Hfind : find (fun item0 => bool_decide (SName item0 = seriesName))
                      (pre ++ item :: post) = Some item).
    { clear Hr. induction Hpre as [|i pre Hi _ IH]; cbn [app find].
      - rewrite bool_decide_true; done.
      - rewrite bool_decide_false; done. }
    by rewrite Hfind.
  - intros Hnone.
    assert (Hfind : find (fun item0 => bool_decide (SName item0 = seriesName)) items
                    = None).
    { clear Hr. induction Hnone as [|i l Hi _ IH]; cbn [find]; [done|].
      rewrite bool_decide_false; done. }
    rewrite Hfind. by destruct items.
Qed.

End SeriesLookup.

Section RestoreRequests.
Import main.
Variable srv : jellyfin.Server.

(** the mark requests for the records of a batch found unplayed *)
Lemma GetEpisodesForSeries_sent seriesID sent0 :
  snd (jellyfin.GetEpisodesForSeries srv seriesID sent0)
  = sent0 ++ [jellyfin.GetEpisodesCall seriesID].
Proof. done. Qed.

Lemma restoreMovies_sent movies sent0 :
  sent (restoreMovies srv movies sent0)
  = sent0 ++ jellyfin.GetAllMoviesCall
      :: match jellyfin.moviesReply srv sent0 with
         | None => []
         | Some items =>
             let maps := foldl jellyfin.addMovie (∅, ∅) items in
             map jellyfin.MarkAsWatchedCall
               (omap (fun movie =>
                        match findMovie (fst maps) (snd maps) movie with
                        | Some info =>
                            if jellyfin.Played info then None
                            else Some (jellyfin.ID info)
                        | None => None
                        end) movies)
         end.
Proof.
  unfold restoreMovies, jellyfin.GetAllMovies.
  destruct (jellyfin.moviesReply srv sent0) as [items|]; [|done].
  cbn zeta. destruct (foldl jellyfin.addMovie (∅, ∅) items) as [pm nm].
  rewrite movies_sent. cbn [sent fst snd]. by rewrite <- app_assoc.
Qed.



Lemma length_omap_le {B C} (f : B -> option C) (l : list B) :
  (length (omap f l) <= length l)%nat.
Proof.
  induction l as [|x l IH]; [done|].
  change (omap f (x :: l))
    with (match f x with Some y => y :: omap f l | None => omap f l end).
  destruct (f x); simpl; lia.
Qed.

Lemma seasons_sent pm nm (seasons : Seasons) st :
  exists ids,
    sent (foldl (fun st1 season => foldl (episodeStep srv pm nm) st1 (snd season))
                st seasons)
    = sent st ++ map jellyfin.MarkAsWatchedCall ids
    /\ Z.of_nat (length ids) <= episodesIn seasons.
Proof.
  revert st. induction seasons as [|season seasons IH]; intros st; simpl.
  - exists []. by rewrite app_nil_r.
  - destruct (IH (foldl (episodeStep srv pm nm) st (snd season))) as (ids & -> & Hlen).
    rewrite episodes_sent. eexists (_ ++ ids).
    rewrite map_app, app_assoc. split; [done|].
    rewrite length_app. unfold len.
    pose proof (length_omap_le
      (fun episode => match findEpisode pm nm episode with
                      | Some info => if Played info then None else Some (ID info)
                      | None => None
                      end) (snd season)).
    lia.
Qed.

Lemma showStep_sent st seriesName seasons :
  exists rest,
    sent (showStep srv st (seriesName, seasons))
    = sent st ++ jellyfin.FindSeriesCall seriesName :: rest
    /\ (rest = []
        ∨ exists seriesID ids,
            rest = jellyfin.GetEpisodesCall seriesID
                   :: map jellyfin.MarkAsWatchedCall ids
            /\ Z.of_nat (length ids) <= episodesIn seasons).
Proof.
  unfold showStep.
  pose proof (FindSeriesID_sent srv seriesName (sent st)) as Hs.
  destruct (jellyfin.FindSeriesID srv seriesName (sent st)) as [[seriesID|] sent1];
    simpl in Hs; subst sent1.
  - unfold jellyfin.GetEpisodesForSeries.
    destruct (jellyfin.episodesReply srv _ seriesID) as [items|].
    + destruct (foldl addEpisode (∅, ∅) (map jellyfin.episodeOfItem items)) as [pm nm].
      destruct (seasons_sent pm nm seasons
                  (withSent st ((sent st ++ [jellyfin.FindSeriesCall seriesName])
                                ++ [jellyfin.GetEpisodesCall seriesID])))
        as (ids & -> & Hlen).
      exists (jellyfin.GetEpisodesCall seriesID :: map jellyfin.MarkAsWatchedCall ids).
      split; [cbn [sent withSent]; by rewrite <- !app_assoc|].
      right. exists seriesID, ids. done.
    + exists [jellyfin.GetEpisodesCall seriesID].
      split; [cbn [sent withSent failAll]; by rewrite <- !app_assoc|].
      right. exists seriesID, []. split; [done|]. simpl.
      apply episodesIn_nonneg.
  - exists []. split; [done|by left].
Qed.

(** X19: for one series group [restoreTVShows] sends one series search,
    then at most one episode query, then only mark requests, at most one
    per snapshot episode of the group. *)
Theorem series_group_requests st seriesName seasons :
  exists rest,
    sent (showStep srv st (seriesName, seasons))
    = sent st ++ jellyfin.FindSeriesCall seriesName :: rest
    /\ (rest = []
        ∨ exists seriesID ids,
            rest = jellyfin.GetEpisodesCall seriesID
                   :: map jellyfin.MarkAsWatchedCall ids
            /\ Z.of_nat (length ids) <= episodesIn seasons).
Proof. apply showStep_sent. Qed.

End RestoreRequests.

(** * The restore as a whole *)

Section Grouping.
Import main_restore.

Lemma groupItems_snoc items item :
  groupItems (items ++ [item]) = addItem (groupItems items) item.
Proof. unfold groupItems. by rewrite foldl_app. Qed.

Lemma groupItems_lookup items series season :
  fst (groupItems items)
    = filter (fun item => models.Type_ item = models.TypeMovie) items
  /\ (snd (groupItems items) !! series ≫= (fun seasons => seasons !! season))
     = match episodesOfGroup series season items with
       | [] => None
       | episodes => Some episodes
       end.
Proof.
  induction items as [|item items [IHm IHe]] using rev_ind; [done|].
  rewrite groupItems_snoc. unfold episodesOfGroup in *.
  rewrite !filter_app, !filter_cons, !filter_nil. unfold addItem.
  destruct (models.Type_ item) eqn:Ht; cbn [fst snd].
  - rewrite (decide_False (P := models.TypeUnknown = models.TypeMovie)) by done.
    rewrite (decide_False (P := models.TypeUnknown = models.TypeEpisode /\ _))
      by (by intros [? _]).
    by rewrite !app_nil_r.
  - rewrite (decide_True (P := models.TypeMovie = models.TypeMovie)) by done.
    rewrite (decide_False (P := models.TypeMovie = models.TypeEpisode /\ _))
      by (by intros [? _]).
    by rewrite IHm, !app_nil_r.
  - rewrite (decide_False (P := models.TypeEpisode = models.TypeMovie)) by done.
    rewrite app_nil_r. split; [done|].
    destruct (decide (models.WSeriesName item = series)) as [Hs|Hs].
    + rewrite Hs, lookup_insert_eq. cbn [mbind option_bind].
      destruct (decide (models.SeasonName item = season)) as [Hn|Hn].
      * rewrite Hn, lookup_insert_eq.
        rewrite (decide_True (P := models.TypeEpisode = models.TypeEpisode /\ _))
          by done.
        remember (filter (fun item0 => models.Type_ item0 = models.TypeEpisode
                                       /\ models.WSeriesName item0 = series
                                       /\ models.SeasonName item0 = season) items)
          as l eqn:El. clear El.
        destruct (snd (groupItems items) !! series) as [seasons|]; simpl in *.
        -- destruct (seasons !! season) as [eps|]; simpl;
             destruct l; try done. by injection IHe as ->.
        -- rewrite lookup_empty. simpl. by destruct l.
      * rewrite lookup_insert_ne by done.
        rewrite (decide_False (P := models.TypeEpisode = models.TypeEpisode /\ _))
          by (by intros (_ & _ & ?)).
        rewrite app_nil_r.
        rewrite <- IHe. by destruct (snd (groupItems items) !! series).
    + rewrite lookup_insert_ne by done.
      rewrite (decide_False (P := models.TypeEpisode = models.TypeEpisode /\ _))
        by (by intros (_ & ? & _)).
      by rewrite app_nil_r.
Qed.

(** X20: grouping loses and reorders nothing.  [movies] holds the movie
    records in the order of the backup; the group of a series and season
    holds the episode records with these two names in the order of the
    backup, and exists only if there is one; records of any other type are
    in no group. *)
Theorem groups_partition_the_backup items series season :
  fst (groupItems items)
    = filter (fun item => models.Type_ item = models.TypeMovie) items
  /\ (snd (groupItems items) !! series ≫= (fun seasons => seasons !! season))
     = match episodesOfGroup series season items with
       | [] => None
       | episodes => Some episodes
       end.
Proof. apply groupItems_lookup. Qed.

Lemma weight_perm {V} (w : V -> Z) l1 l2 : l1 ≡ₚ l2 -> weight w l1 = weight w l2.
Proof. induction 1; simpl; lia. Qed.

Lemma weight_insert {V} (w : V -> Z) (m : gmap string V) i x :
  weight w (map_to_list (<[i:=x]> m)) = w x + weight w (map_to_list (delete i m)).
Proof.
  rewrite <- insert_delete_eq.
  rewrite (weight_perm w _ _ (map_to_list_insert (delete i m) i x (lookup_delete_eq m i))).
  done.
Qed.

Lemma weight_lookup {V} (w : V -> Z) (m : gmap string V) i :
  weight w (map_to_list m)
  = match m !! i with Some v => w v | None => 0 end
    + weight w (map_to_list (delete i m)).
Proof.
  destruct (m !! i) as [v|] eqn:Hi.
  - by rewrite <- (weight_perm w _ _ (map_to_list_delete m i v Hi)).
  - by rewrite delete_id.
Qed.

Lemma seasons_fold_weight (seasons : gmap string (list models.WatchedItem)) t :
  map_fold (fun _ episodes tot' => tot' + main.len episodes) t seasons
  = t + seasonsWeight seasons.
Proof.
  rewrite map_fold_foldr. unfold seasonsWeight.
  induction (map_to_list seasons) as [|[n eps] l IH]; simpl; [lia|].
  rewrite IH. lia.
Qed.

Lemma addEpisodeCounts_weight total0 tvShowMap :
  addEpisodeCounts total0 tvShowMap
  = total0 + weight seasonsWeight (map_to_list tvShowMap).
Proof.
  unfold addEpisodeCounts. rewrite map_fold_foldr.
  induction (map_to_list tvShowMap) as [|[name seasons] l IH]; simpl; [lia|].
  rewrite IH, seasons_fold_weight. lia.
Qed.

Lemma rangeOf_episodesOf tvShowMap shows :
  rangeOf tvShowMap shows ->
  main.episodesOf shows = weight seasonsWeight (map_to_list tvShowMap).
Proof.
  intros (outer & Hperm & Hall). rewrite <- (weight_perm _ _ _ Hperm). clear Hperm.
  induction Hall as [|entry show outer shows [_ Hs] _ IH]; simpl; [done|].
  rewrite IH. f_equal. unfold seasonsWeight.
  rewrite <- (weight_perm _ _ _ Hs). done.
Qed.

Lemma someOrder_rangeOf tvShowMap : rangeOf tvShowMap (someOrder tvShowMap).
Proof.
  exists (map_to_list tvShowMap). split; [done|]. unfold someOrder.
  induction (map_to_list tvShowMap); constructor; auto.
Qed.

Lemma groupItems_weight items :
  weight seasonsWeight (map_to_list (snd (groupItems items)))
  = main.len (filter (fun item => models.Type_ item = models.TypeEpisode) items).
Proof.
  induction items as [|item items IH] using rev_ind; [done|].
  rewrite groupItems_snoc, filter_app, filter_cons, filter_nil. unfold addItem.
  unfold main.len in *. rewrite length_app.
  destruct (models.Type_ item) eqn:Ht; cbn [fst snd].
  - rewrite (decide_False (P := models.TypeUnknown = models.TypeEpisode)) by done.
    simpl. lia.
  - rewrite (decide_False (P := models.TypeMovie = models.TypeEpisode)) by done.
    simpl. lia.
  - rewrite (decide_True (P := models.TypeEpisode = models.TypeEpisode)) by done.
    set (m := snd (groupItems items)) in *.
    rewrite weight_insert.
    rewrite (weight_lookup seasonsWeight m (models.WSeriesName item)) in IH.
    unfold seasonsWeight at 1. rewrite weight_insert.
    assert (Hin : match m !! models.WSeriesName item with
                  | Some v => seasonsWeight v
                  | None => 0
                  end
                  = Z.of_nat (length (default [] (default ∅ (m !! models.WSeriesName item)
                                                   !! models.SeasonName item)))
                    + weight main.len
                        (map_to_list (delete (models.SeasonName item)
                                        (default ∅ (m !! models.WSeriesName item))))).
    { destruct (m !! models.WSeriesName item) as [seasons|]; simpl.
      - unfold seasonsWeight.
        rewrite (weight_lookup main.len seasons (models.SeasonName item)).
        by destruct (seasons !! models.SeasonName item).
      - rewrite lookup_empty. simpl. by rewrite delete_empty, map_to_list_empty. }
    unfold main.len at 1. rewrite length_app. simpl length. lia.
Qed.

Lemma filter_movie_or_episode items :
  main.len (filter (fun item => models.Type_ item = models.TypeMovie
                                ∨ models.Type_ item = models.TypeEpisode) items)
  = main.len (filter (fun item => models.Type_ item = models.TypeMovie) items)
    + main.len (filter (fun item => models.Type_ item = models.TypeEpisode) items).
Proof.
  unfold main.len. induction items as [|item items IH]; [done|].
  rewrite !filter_cons. destruct (models.Type_ item) eqn:Ht.
  - rewrite (decide_False (P := models.TypeUnknown = models.TypeMovie ∨ _))
      by (by intros [|]).
    rewrite (decide_False (P := models.TypeUnknown = models.TypeMovie)) by done.
    by rewrite (decide_False (P := models.TypeUnknown = models.TypeEpisode)) by done.
  - rewrite (decide_True (P := models.TypeMovie = models.TypeMovie ∨ _)) by (by left).
    rewrite (decide_True (P := models.TypeMovie = models.TypeMovie)) by done.
    rewrite (decide_False (P := models.TypeMovie = models.TypeEpisode)) by done.
    simpl length. lia.
  - rewrite (decide_True (P := models.TypeEpisode = models.TypeMovie ∨ _)) by (by right).
    rewrite (decide_False (P := models.TypeEpisode = models.TypeMovie)) by done.
    rewrite (decide_True (P := models.TypeEpisode = models.TypeEpisode)) by done.
    simpl length. lia.
Qed.

End Grouping.

Section WholeRestore.
Import main_restore.
Variable srv : jellyfin.Server.
Variable rangeOver :
  gmap string (gmap string (list models.WatchedItem)) -> list main.Show.

Lemma restoreMovies_count movies sent0 :
  main.successful (main.restoreMovies srv movies sent0)
  + main.failed (main.restoreMovies srv movies sent0) = main.len movies.
Proof.
  unfold main.restoreMovies, jellyfin.GetAllMovies.
  destruct (jellyfin.moviesReply srv sent0) as [items|]; [|simpl; lia].
  destruct (foldl jellyfin.addMovie (∅, ∅) items) as [pm nm].
  pose proof (steps_count (main.movieStep srv pm nm) movies
    {| main.successful := 0; main.failed := 0;
       main.sent := sent0 ++ [jellyfin.GetAllMoviesCall] |}
    (movieStep_oneMore srv pm nm)) as Hc. simpl in Hc. lia.
Qed.

(** X21: the three numbers [performRestore] prints agree: whatever the
    order in which the groups are visited, [Successful] plus [Failed] is
    [Total], and [Total] is the number of records of the backup that are
    movies or episodes. *)
Theorem restore_summary_adds_up items sent0 :
  rangeOf (snd (groupItems items)) (rangeOver (snd (groupItems items))) ->
  let r := performRestore srv rangeOver items sent0 in
  successful r + failed r = total r
  /\ total r
     = main.len (filter (fun item => models.Type_ item = models.TypeMovie
                                     ∨ models.Type_ item = models.TypeEpisode) items).
Proof.
  intros Hrange. cbn zeta. unfold performRestore.
  rewrite filter_movie_or_episode.
  pose proof (groupItems_weight items) as Hw.
  destruct (groupItems_lookup items EmptyString EmptyString) as [Hmovies _].
  pose proof (rangeOf_episodesOf _ _ Hrange) as Hshows.
  destruct (groupItems items) as [movies tvShowMap]. cbn [fst snd] in *.
  rewrite <- Hmovies, <- Hw.
  assert (Hafter : forall s f t c,
    s + f = t -> t = main.len movies ->
    let a := {| successful := s; failed := f; total := t; sent := c |} in
    successful (if (0 <? size tvShowMap)%nat then
                  {| successful := successful a
                       + main.successful (main.restoreTVShows srv (rangeOver tvShowMap) c);
                     failed := failed a
                       + main.failed (main.restoreTVShows srv (rangeOver tvShowMap) c);
                     total := addEpisodeCounts (total a) tvShowMap;
                     sent := main.sent (main.restoreTVShows srv (rangeOver tvShowMap) c) |}
                else a)
    + failed (if (0 <? size tvShowMap)%nat then
                  {| successful := successful a
                       + main.successful (main.restoreTVShows srv (rangeOver tvShowMap) c);
                     failed := failed a
                       + main.failed (main.restoreTVShows srv (rangeOver tvShowMap) c);
                     total := addEpisodeCounts (total a) tvShowMap;
                     sent := main.sent (main.restoreTVShows srv (rangeOver tvShowMap) c) |}
                else a)
    = total (if (0 <? size tvShowMap)%nat then
                  {| successful := successful a
                       + main.successful (main.restoreTVShows srv (rangeOver tvShowMap) c);
                     failed := failed a
                       + main.failed (main.restoreTVShows srv (rangeOver tvShowMap) c);
                     total := addEpisodeCounts (total a) tvShowMap;
                     sent := main.sent (main.restoreTVShows srv (rangeOver tvShowMap) c) |}
                else a)
    /\ total (if (0 <? size tvShowMap)%nat then
                  {| successful := successful a
                       + main.successful (main.restoreTVShows srv (rangeOver tvShowMap) c);
                     failed := failed a
                       + main.failed (main.restoreTVShows srv (rangeOver tvShowMap) c);
                     total := addEpisodeCounts (total a) tvShowMap;
                     sent := main.sent (main.restoreTVShows srv (rangeOver tvShowMap) c) |}
                else a)
       = main.len movies + weight seasonsWeight (map_to_list tvShowMap)).
  { intros s f t c Hsf Ht. cbn zeta.
    destruct (Nat.ltb_spec 0 (size tvShowMap)) as [Hpos|Hzero]; cbn [successful failed total].
    - rewrite addEpisodeCounts_weight.
      pose proof (shows_count srv (rangeOver tvShowMap)
        {| main.successful := 0; main.failed := 0; main.sent := c |}) as Hc.
      cbn zeta in Hc. destruct Hc as [Hc _]. unfold main.restoreTVShows.
      simpl in Hc. rewrite Hshows in Hc. lia.
    - assert (tvShowMap = ∅) as -> by (apply map_size_empty_iff; lia).
      rewrite map_to_list_empty. simpl. lia. }
  destruct (Z.ltb_spec 0 (main.len movies)) as [Hpos|Hzero].
  - apply Hafter; [apply restoreMovies_count|done].
  - apply Hafter; unfold main.len in *; lia.
Qed.

End WholeRestore.

(** * The requests of a restore *)

Section RestoreQueries.
Import main_restore.
Variable srv : jellyfin.Server.
Variable rangeOver :
  gmap string (gmap string (list models.WatchedItem)) -> list main.Show.

Lemma mark_calls_only ids call :
  call ∈ map jellyfin.MarkAsWatchedCall ids ->
  exists id, call = jellyfin.MarkAsWatchedCall id.
Proof.
  induction ids as [|id ids IH]; simpl; [by intros ?%elem_of_nil|].
  intros [->|H]%elem_of_cons; [by exists id|by apply IH].
Qed.

Lemma tvShows_sent shows st :
  exists rest,
    main.sent (foldl (main.showStep srv) st shows) = main.sent st ++ rest
    /\ (jellyfin.GetAllMoviesCall ∉ rest)
    /\ forall s, jellyfin.FindSeriesCall s ∈ rest <-> exists seasons, (s, seasons) ∈ shows.
Proof.
  revert st. induction shows as [|[name seasons] shows IH]; intros st; cbn [foldl].
  - exists []. rewrite app_nil_r. split; [done|]. split; [apply not_elem_of_nil|].
    intros s. split; [by intros ?%elem_of_nil|by intros [? ?%elem_of_nil]].
  - destruct (showStep_sent srv st name seasons) as (r1 & Hs & Hr1).
    destruct (IH (main.showStep srv st (name, seasons))) as (r2 & -> & Hm & Hf).
    rewrite Hs. exists (jellyfin.FindSeriesCall name :: r1 ++ r2).
    split; [by rewrite <- app_assoc|].
    assert (Hr1m : (jellyfin.GetAllMoviesCall ∉ r1)
                   /\ forall s, jellyfin.FindSeriesCall s ∉ r1).
    { destruct Hr1 as [->|(id & ids & -> & _)].
      - split; [|intros s]; apply not_elem_of_nil.
      - split; [|intros s]; intros [H|H]%elem_of_cons; try done;
          by apply mark_calls_only in H as [? ?]. }
    destruct Hr1m as [Hm1 Hf1]. split.
    + intros [H|[H|H]%elem_of_app]%elem_of_cons; done.
    + intros s. split.
      * intros [H|[H|H]%elem_of_app]%elem_of_cons.
        -- injection H as ->. exists seasons. by left.
        -- by apply Hf1 in H.
        -- apply Hf in H as [seasons' H]. exists seasons'. by right.
      * intros [seasons' [H|H]%elem_of_cons].
        -- injection H as -> _. by left.
        -- right. apply elem_of_app. right. apply Hf. by exists seasons'.
Qed.

Lemma rangeOf_keys tvShowMap shows s :
  rangeOf tvShowMap shows ->
  (exists seasons, (s, seasons) ∈ shows) <-> is_Some (tvShowMap !! s).
Proof.
  intros (outer & Hperm & HF2). split.
  - intros [seasons [i Hi]%list_elem_of_lookup].
    destruct (Forall2_lookup_r _ _ _ _ _ HF2 Hi) as ([k v] & Hk & Hfst & _).
    simpl in Hfst. subst k. exists v. apply elem_of_map_to_list.
    rewrite <- Hperm. by apply list_elem_of_lookup_2 with i.
  - intros [v Hv]. apply elem_of_map_to_list in Hv. rewrite <- Hperm in Hv.
    apply list_elem_of_lookup in Hv as [i Hi].
    destruct (Forall2_lookup_l _ _ _ _ _ HF2 Hi) as ([k seasons] & Hk & Hfst & _).
    simpl in Hfst. subst k. exists seasons. by apply list_elem_of_lookup_2 with i.
Qed.

Lemma groupItems_series items s :
  is_Some (snd (groupItems items) !! s)
  <-> exists item, item ∈ items /\ models.Type_ item = models.TypeEpisode
                   /\ models.WSeriesName item = s.
Proof.
  induction items as [|item items IH] using rev_ind.
  - unfold groupItems. simpl. rewrite lookup_empty. split.
    + by intros [? ?].
    + by intros (? & ?%elem_of_nil & _).
  - rewrite groupItems_snoc. unfold addItem.
    assert (Hold : (exists item0, item0 ∈ items
                      /\ models.Type_ item0 = models.TypeEpisode
                      /\ models.WSeriesName item0 = s) ->
                   exists item0, item0 ∈ items ++ [item]
                      /\ models.Type_ item0 = models.TypeEpisode
                      /\ models.WSeriesName item0 = s).
    { intros (item0 & ? & ?). exists item0. split; [|done].
      apply elem_of_app. by left. }
    assert (Hnew : (exists item0, item0 ∈ items ++ [item]
                      /\ models.Type_ item0 = models.TypeEpisode
                      /\ models.WSeriesName item0 = s) ->
                   (models.Type_ item = models.TypeEpisode
                    /\ models.WSeriesName item = s)
                   ∨ exists item0, item0 ∈ items
                      /\ models.Type_ item0 = models.TypeEpisode
                      /\ models.WSeriesName item0 = s).
    { intros (item0 & [Hin|Hin]%elem_of_app & Hty).
      - right. by exists item0.
      - apply list_elem_of_singleton in Hin as ->. by left. }
    destruct (models.Type_ item) eqn:Hty; cbn zeta; cbn [snd].
    + rewrite IH. split; [done|]. intros [[? _]|H]%Hnew; done.
    + rewrite IH. split; [done|]. intros [[? _]|H]%Hnew; done.
    + rewrite lookup_insert_is_Some, IH. split.
      * intros [<-|[_ H]]; [|by apply Hold].
        exists item. split; [|done]. apply elem_of_app. right. by left.
      * intros [[_ <-]|H]%Hnew; [by left|].
        destruct (decide (models.WSeriesName item = s)); [by left|by right].
Qed.

(** X22: a restore asks Jellyfin only for what the backup holds.  Whatever
    the order in which the groups are visited, the movie query is sent
    exactly when the backup has a movie record, a series is searched for
    exactly when the backup has an episode record of that series, and a
    backup with no movie and no episode record sends nothing at all. *)
Theorem restore_queries_follow_the_backup items sent0 :
  rangeOf (snd (groupItems items)) (rangeOver (snd (groupItems items))) ->
  exists rest,
    sent (performRestore srv rangeOver items sent0) = sent0 ++ rest
    /\ (jellyfin.GetAllMoviesCall ∈ rest
        <-> exists item, item ∈ items /\ models.Type_ item = models.TypeMovie)
    /\ (forall s, jellyfin.FindSeriesCall s ∈ rest
        <-> exists item, item ∈ items /\ models.Type_ item = models.TypeEpisode
                         /\ models.WSeriesName item = s)
    /\ ((forall item, item ∈ items ->
           models.Type_ item <> models.TypeMovie
           /\ models.Type_ item <> models.TypeEpisode) -> rest = []).
Proof.
  intros Hrange. unfold performRestore.
  pose proof (fun s => rangeOf_keys _ _ s Hrange) as Hkeys.
  pose proof (groupItems_series items) as Hseries.
  destruct (groupItems_lookup items EmptyString EmptyString) as [Hmovies _].
  destruct (groupItems items) as [movies tvShowMap]. cbn [fst snd] in *.
  assert (Hmov : (exists item, item ∈ items /\ models.Type_ item = models.TypeMovie)
                 <-> movies <> []).
  { rewrite Hmovies. split.
    - intros (item & Hin & Hty) Hnil.
      assert (item ∈ filter (fun item => models.Type_ item = models.TypeMovie) items)
        as H by (by apply list_elem_of_filter).
      rewrite Hnil in H. by apply elem_of_nil in H.
    - destruct (filter _ items) as [|item l] eqn:Hf; [done|]. intros _.
      assert (item ∈ filter (fun item => models.Type_ item = models.TypeMovie) items)
        as H by (rewrite Hf; by left).
      apply list_elem_of_filter in H as [? ?]. by exists item. }
  assert (HM : exists r1,
    sent (if 0 <? main.len movies then
            {| successful := main.successful (main.restoreMovies srv movies sent0);
               failed := main.failed (main.restoreMovies srv movies sent0);
               total := main.len movies;
               sent := main.sent (main.restoreMovies srv movies sent0) |}
          else {| successful := 0; failed := 0; total := 0; sent := sent0 |})
    = sent0 ++ r1
    /\ (jellyfin.GetAllMoviesCall ∈ r1 <-> movies <> [])
    /\ (forall s, jellyfin.FindSeriesCall s ∉ r1)
    /\ (movies = [] -> r1 = [])).
  { destruct movies as [|movie movies].
    - exists []. cbn. rewrite app_nil_r. split; [done|].
      split; [split; [by intros ?%elem_of_nil|done]|].
      split; [intros s; apply not_elem_of_nil|done].
    - assert ((0 <? main.len (movie :: movies)) = true) as ->
        by (apply Z.ltb_lt; unfold main.len; simpl; lia).
      cbn [sent]. rewrite restoreMovies_sent. eexists. split; [done|].
      split; [split; [done|intros _; by left]|]. split; [|done].
      intros s [H|H]%elem_of_cons; [done|].
      destruct (jellyfin.moviesReply srv sent0); [|by apply elem_of_nil in H].
      by apply mark_calls_only in H as [? ?]. }
  destruct HM as (r1 & HM & Hq1 & Hs1 & Hnil1).
  destruct (Nat.ltb_spec 0 (size tvShowMap)) as [Hpos|Hzero].
  - cbn [sent]. unfold main.restoreTVShows.
    destruct (tvShows_sent (rangeOver tvShowMap)
      {| main.successful := 0; main.failed := 0;
         main.sent := sent (if 0 <? main.len movies then
            {| successful := main.successful (main.restoreMovies srv movies sent0);
               failed := main.failed (main.restoreMovies srv movies sent0);
               total := main.len movies;
               sent := main.sent (main.restoreMovies srv movies sent0) |}
          else {| successful := 0; failed := 0; total := 0; sent := sent0 |}) |})
      as (r2 & -> & Hq2 & Hs2).
    cbn [main.sent]. rewrite HM. exists (r1 ++ r2).
    split; [by rewrite <- app_assoc|]. split; [|split].
    + rewrite Hmov, <- Hq1. rewrite elem_of_app. split; [|by left].
      by intros [?|?].
    + intros s. rewrite elem_of_app, Hs2, Hkeys, Hseries. split; [|by right].
      intros [H|H]; [by apply Hs1 in H|done].
    + intros Hnone. exfalso.
      assert (tvShowMap = ∅) as ->; [|by rewrite map_size_empty in Hpos; lia].
      apply map_empty. intros s. apply eq_None_not_Some.
      intros (item & Hin & Hty & _)%Hseries. by destruct (Hnone item Hin).
  - assert (tvShowMap = ∅) as -> by (apply map_size_empty_iff; lia).
    rewrite HM. exists r1. split; [done|]. split; [by rewrite Hmov|]. split.
    + intros s. rewrite <- Hseries, lookup_empty. split; [by intros ?%Hs1|].
      by intros [? ?].
    + intros Hnone. apply Hnil1. destruct movies as [|movie l]; [done|].
      assert (movie ∈ filter (fun item => models.Type_ item = models.TypeMovie) items)
        as H by (rewrite <- Hmovies; by left).
      apply list_elem_of_filter in H as [Hty Hin]. by destruct (Hnone movie Hin).
Qed.

End RestoreQueries.

(** * The items a restore marks *)

Section RestoreMarks.
Import main_restore.
Variable srv : jellyfin.Server.
Variable rangeOver :
  gmap string (gmap string (list models.WatchedItem)) -> list main.Show.










End RestoreMarks.

(** * The further properties on concrete data *)

Lemma reported_episodes_are_due_witness :
  tvdb.missingOf samples.part2
    ∈ tvdb.FindMissingEpisodes samples.noon [samples.part1; samples.part2] ∅ false
  /\ exists i ep,
       [samples.part1; samples.part2] !! i = Some ep
       /\ tvdb.missingOf samples.part2 = tvdb.missingOf ep
       /\ (∅ : gmap string Z) !! tvdb.episodeKey ep = None
       /\ (tvdb.SeasonNumber ep ≠ 0 ∨ false = true)
       /\ exists airDate,
            time.Parse_2006_01_02 (tvdb.Aired ep) = Some airDate
            /\ airDate < samples.noon i.
Proof.
  assert (Hin : tvdb.missingOf samples.part2
                  ∈ tvdb.FindMissingEpisodes samples.noon
                      [samples.part1; samples.part2] ∅ false).
  { vm_compute. right. left. }
  split; [exact Hin|].
  exact (reported_episodes_are_due ∅ false samples.noon
           [samples.part1; samples.part2] (tvdb.missingOf samples.part2) Hin).
Defined.

Lemma local_episode_restarts_scan_witness :
  let jf : gmap string Z := {[ "1:1"%string := 102 ]} in
  tvdb.FindMissingEpisodes samples.noon
    ([samples.special] ++ samples.part1 :: [samples.part2]) jf true
  = tvdb.FindMissingEpisodes samples.noon [samples.special] jf true
    ++ tvdb.FindMissingEpisodes
         (scan_notions.clockFrom (length [samples.special]) samples.noon)
         (samples.part1 :: [samples.part2]) jf true.
Proof.
  intros jf.
  apply (local_episode_restarts_scan jf true samples.noon
           [samples.special] samples.part1 [samples.part2] 102).
  by vm_compute.
Defined.

Lemma after_a_miss_every_candidate_is_reported_witness :
  tvdb.FindMissingEpisodes samples.noon
    ([] ++ samples.part1 :: [samples.part2; samples.undated]) ∅ false
  = tvdb.FindMissingEpisodes samples.noon [] ∅ false
    ++ tvdb.missingOf samples.part1
       :: map tvdb.missingOf
            (scan_notions.candidatesFrom false samples.noon (S (length (@nil tvdb.Episode)))
               [samples.part2; samples.undated]).
Proof.
  apply (after_a_miss_every_candidate_is_reported ∅ false samples.noon
           [] samples.part1 [samples.part2; samples.undated]).
  - by vm_compute.
  - by vm_compute.
  - by vm_compute.
  - repeat (apply List.Forall_cons; [by vm_compute|]). apply List.Forall_nil.
Defined.


Lemma merge_test_is_a_threshold_witness :
  tvdb.longEnough 102 120 = true <-> (17 * 120 + 19) `div` 20 <= 102.
Proof. apply merge_test_is_a_threshold; lia. Defined.

Lemma local_episodes_are_never_reported_witness :
  let jellyfinEpisodes := [samples_more.localEpisode 1 1 100] in
  let m := tvdb.missingOf samples.part2 in
  m ∈ main_findmissing.missingOfSeries samples.noon [samples.part1; samples.part2]
        jellyfinEpisodes false
  /\ samples_more.localEpisode 1 1 100 ∈ jellyfinEpisodes
  /\ ~ (jellyfin.SeasonNumber (samples_more.localEpisode 1 1 100) = models.SeasonNumber m
        /\ jellyfin.EpisodeNumber (samples_more.localEpisode 1 1 100)
           = models.EpisodeNumber m).
Proof.
  intros jellyfinEpisodes m.
  assert (Hm : m ∈ main_findmissing.missingOfSeries samples.noon
                     [samples.part1; samples.part2] jellyfinEpisodes false).
  { vm_compute. left. }
  assert (Hje : samples_more.localEpisode 1 1 100 ∈ jellyfinEpisodes) by left.
  split; [exact Hm|]. split; [exact Hje|].
  exact (local_episodes_are_never_reported samples.noon [samples.part1; samples.part2]
           jellyfinEpisodes false m (samples_more.localEpisode 1 1 100) Hm Hje).
Defined.



Lemma pages_need_a_token_witness :
  let c := fst (fst (tvdb_client.Login samples_more.brokenSecondPage
                       (tvdb_client.NewClient "key") [])) in
  let sent1 := snd (tvdb_client.Login samples_more.brokenSecondPage
                      (tvdb_client.NewClient "key") []) in
  sent1 = [] ++ [tvdb_client.LoginCall "key"]
  /\ tvdb_client.GetSeriesEpisodes samples_more.brokenSecondPage 1 c "42" sent1
     = (Some None, sent1).
Proof.
  apply (pages_need_a_token samples_more.brokenSecondPage 0 "key" "42" []).
  intros tok H. vm_compute in H. discriminate H.
Defined.



Lemma series_lookup_prefers_exact_name_witness :
  fst (jellyfin.FindSeriesID samples_more.noEpisodes "Show" []) = Some "s1"%string.
Proof.
  assert (Hr : jellyfin.seriesReply samples_more.noEpisodes [] "Show"
               = Some [samples_more.showTwo; samples_more.showOne]) by reflexivity.
  apply (proj1 (series_lookup_prefers_exact_name samples_more.noEpisodes "Show" []
                  [samples_more.showTwo; samples_more.showOne] Hr)
           [samples_more.showTwo] samples_more.showOne []).
  - reflexivity.
  - apply List.Forall_cons; [by vm_compute|]. apply List.Forall_nil.
  - reflexivity.
Defined.


Lemma restore_summary_adds_up_witness :
  let r := main_restore.performRestore samples_more.noEpisodes main_restore.someOrder
             samples_more.backup [] in
  main_restore.successful r + main_restore.failed r = main_restore.total r
  /\ main_restore.total r
     = main.len (filter (fun item => models.Type_ item = models.TypeMovie
                                     ∨ models.Type_ item = models.TypeEpisode)
                        samples_more.backup).
Proof.
  apply (restore_summary_adds_up samples_more.noEpisodes main_restore.someOrder
           samples_more.backup []).
  exists (map_to_list (snd (main_restore.groupItems samples_more.backup))).
  split; [done|]. vm_compute. repeat constructor.
Defined.

Lemma restore_queries_follow_the_backup_witness :
  exists rest,
    main_restore.sent (main_restore.performRestore samples_more.noEpisodes
                         main_restore.someOrder samples_more.backup []) = [] ++ rest
    /\ (jellyfin.GetAllMoviesCall ∈ rest
        <-> exists item, item ∈ samples_more.backup
                         /\ models.Type_ item = models.TypeMovie)
    /\ (forall s, jellyfin.FindSeriesCall s ∈ rest
        <-> exists item, item ∈ samples_more.backup
                         /\ models.Type_ item = models.TypeEpisode
                         /\ models.WSeriesName item = s)
    /\ ((forall item, item ∈ samples_more.backup ->
           models.Type_ item <> models.TypeMovie
           /\ models.Type_ item <> models.TypeEpisode) -> rest = []).
Proof.
  apply (restore_queries_follow_the_backup samples_more.noEpisodes main_restore.someOrder
           samples_more.backup []).
  exists (map_to_list (snd (main_restore.groupItems samples_more.backup))).
  split; [done|]. vm_compute. repeat constructor.
Defined.
